(** * migrate: ordered, resumable application of migration handlers

    A shallow embedding of the Go package [migrate] (the orchestrator:
    [initHandlers], [initAndGetSchema], [Run]) and of the package
    [concrete] (the Go-function executor and the SQL-file executor), with
    the properties of the run algorithm proved over it.

    Conventions of the embedding.
    - Go's [int] is a 64-bit two's complement integer: it is a [Z], and the
      one subtraction the package performs on indices is wrapped by [wrap].
    - An [error] value is a term of the inductive [error]; a Go [error]
      result that may be [nil] is an [option error].
    - Interfaces ([Handler], [Executor]) are records of their methods.
    - The process state the package acts on is a [World]: the application
      data the handlers change, the tables of the database the package
      owns, the failures the database connection is going to report, and
      a log of what was executed (ghost state, for stating properties).
      A handler's action reads and writes the application data only: the
      schema table belongs to the orchestrator.
    - [sort.Slice] is a library routine without a stability guarantee; the
      development is parametric in any [SortSlice] that returns a
      permutation sorted by the comparison the package passes, and a
      merge sort instance is supplied for evaluation. *)

From Stdlib Require Import ZArith List Ascii Lia.
From stdpp Require Import base tactics option list list_numbers sorting
  strings pretty gmap.

Local Open Scope Z_scope.

(** ** Go's [int] *)

Definition int_min : Z := - 2 ^ 63.
Definition int_max : Z := 2 ^ 63 - 1.

(** The values a Go [int] can hold. *)
Definition is_int (z : Z) : Prop := int_min ≤ z ≤ int_max.

(** Two's complement wrap-around of an arithmetic result. *)
Definition wrap (z : Z) : Z := (z + 2 ^ 63) `mod` 2 ^ 64 - 2 ^ 63.

(** ** Errors *)

(** The error values of the two packages. [Foreign] stands for an error
    made outside of them (the database driver, the operating system, a
    handler's own function); [WithStack] and [WithMessage] are the
    wrappers of [github.com/pkg/errors]. *)
Inductive error : Type :=
| ErrDuplicateIndex (index : Z)    (* errors.Errorf(ErrDuplicateIndexFormat, index) *)
| ErrIndexGapLarge (index : Z)     (* errors.Errorf(ErrIndexGapLargeFormat, index) *)
| ErrFindIndexDirty (version : Z)  (* errors.Errorf(ErrFindIndexDirtyFormat, version) *)
| ErrIndexLessDatabaseVersion
| ErrFileType
| ErrFileName
| Foreign (msg : string)
| WithStack (cause : error)
| WithMessage (cause : error) (msg : string).

(** [errors.WithStack(err)]: [nil] stays [nil]. *)
Definition withStack (err : option error) : option error :=
  WithStack <$> err.

(** The text of an error, [err.Error()]. *)
Fixpoint Error (e : error) : string :=
  match e with
  | ErrDuplicateIndex i => "duplicate index is " +:+ pretty i
  | ErrIndexGapLarge i =>
      "index gap is larger than 1, current index is " +:+ pretty i
  | ErrFindIndexDirty v => "find dirty index " +:+ pretty v
  | ErrIndexLessDatabaseVersion => "index less than database version"
  | ErrFileType => "file type is not supported"
  | ErrFileName => "file name is illegal"
  | Foreign msg => msg
  | WithStack c => Error c
  | WithMessage c msg => msg +:+ ": " +:+ Error c
  end.

(** Does [s] occur in [t] as a contiguous substring? *)
Fixpoint contains (s t : string) : bool :=
  if String.prefix s t then true
  else match t with
       | EmptyString => false
       | String _ t' => contains s t'
       end.

(** ** The database connection *)

(** A row of the schema table: the columns [version] and [dirty]. *)
Record Row : Type := mkRow { row_version : Z; row_dirty : Z }.

(** The statements the package sends, with the table name that
    [fmt.Sprintf] puts in and the arguments bound to [?]. *)
Inductive Query : Type :=
| createSchemaTableQuery (table : string)
| selectSchemaQuery (table : string)
| updateSchemaQuery (table : string) (version : Z)
| updateDirtyQuery (table : string) (version dirty : Z)
| insertDefaultSchema (table : string).

Inductive Event : Type :=
| EvExec (index : Z)                     (* a handler's Exec was called *)
| EvDB (q : Query) (err : option error). (* a statement was sent *)

Section Migrate.

(** The application data that handlers act on. *)
Context {U : Type}.

Record World : Type := mkWorld {
  udata : U;
  tables : gmap string (list Row);
  faults : list (option error);
  trace : list Event
}.

(** What a statement does to the tables when the server runs it; [inl]
    when the server rejects it because the table is missing. *)
Definition stmt_effect (q : Query) (ts : gmap string (list Row))
  : error + gmap string (list Row) :=
  let on t (f : list Row → list Row) :=
    match ts !! t with
    | Some rows => inr (<[t := f rows]> ts)
    | None => inl (Foreign ("Table '" +:+ t +:+ "' doesn't exist"))
    end in
  match q with
  | createSchemaTableQuery t =>
      match ts !! t with
      | Some _ => inr ts                       (* IF NOT EXISTS *)
      | None => inr (<[t := []]> ts)
      end
  | selectSchemaQuery t => on t (λ rows, rows)
  | updateSchemaQuery t v =>
      (* no WHERE clause: every row; only the version column *)
      on t (map (λ r, mkRow v (row_dirty r)))
  | updateDirtyQuery t v d => on t (map (λ _, mkRow v d))
  | insertDefaultSchema t => on t (λ rows, rows ++ [mkRow 0 0])
  end.

(** The connection reports the next scheduled failure, if any; an
    exhausted schedule means no failure. *)
Definition next_fault (w : World) : option error * list (option error) :=
  match faults w with
  | [] => (None, [])
  | f :: fs => (f, fs)
  end.

(** [db.Exec(query, args...)]. *)
Definition db_Exec (q : Query) (w : World) : option error * World :=
  let '(f, fs) := next_fault w in
  match f with
  | Some e => (Some e, mkWorld (udata w) (tables w) fs (trace w ++ [EvDB q (Some e)]))
  | None =>
      match stmt_effect q (tables w) with
      | inl e => (Some e, mkWorld (udata w) (tables w) fs (trace w ++ [EvDB q (Some e)]))
      | inr ts => (None, mkWorld (udata w) ts fs (trace w ++ [EvDB q None]))
      end
  end.

(** [db.Query(query)]: the rows of the table, or an error. *)
Definition db_Query (q : Query) (table : string) (w : World)
  : (error + list Row) * World :=
  let '(f, fs) := next_fault w in
  match f with
  | Some e => (inl e, mkWorld (udata w) (tables w) fs (trace w ++ [EvDB q (Some e)]))
  | None =>
      match tables w !! table with
      | None =>
          let e := Foreign ("Table '" +:+ table +:+ "' doesn't exist") in
          (inl e, mkWorld (udata w) (tables w) fs (trace w ++ [EvDB q (Some e)]))
      | Some rows =>
          (inr rows, mkWorld (udata w) (tables w) fs (trace w ++ [EvDB q None]))
      end
  end.

(** [rows.Scan] into a [bool]: the column must hold 0 or 1. *)
Definition scan_bool (d : Z) : error + bool :=
  if d =? 0 then inr false
  else if d =? 1 then inr true
  else inl (Foreign "sql: Scan error on column index 1: couldn't convert into type bool").

(** ** Handlers and executors *)

(** The interface [Handler]: an index and an action. The action's
    [context.Context] carries no data the package reads and is left out;
    the action reports its error and changes the application data. *)
Record Handler : Type := mkHandler {
  GetIndex : Z;
  Exec : U → U * option error
}.

(** The interface [Executor]: an object with a state of its own (the SQL
    executor memoizes its list) whose [ListHandlers] returns a list and
    an error. *)
Record Executor : Type := mkExecutor {
  ex_state : Type;
  ex_self : ex_state;
  ex_list : ex_state → (list Handler * option error) * ex_state
}.

Definition ListHandlers (e : Executor)
  : (list Handler * option error) * Executor :=
  let '(r, s) := ex_list e (ex_self e) in
  (r, mkExecutor (ex_state e) s (ex_list e)).

(** [sort.Slice(hs, less)] with [less i j := hs[i].GetIndex() <
    hs[j].GetIndex()]: a permutation in which no later element is less
    than an earlier one. *)
Definition index_le (a b : Handler) : Prop := GetIndex a ≤ GetIndex b.

Class SortSlice : Type := {
  sort_slice : list Handler → list Handler;
  sort_slice_perm : ∀ l, sort_slice l ≡ₚ l;
  sort_slice_sorted : ∀ l, StronglySorted index_le (sort_slice l)
}.

(** ** The orchestrator *)

Record migrate : Type := mkMigrate {
  schemaTable : string;
  executors : list Executor;
  handlers : list Handler
}.

Definition defaultSchemaTableName : string := "schema_migrations".

Definition Option : Type := migrate → migrate.

Definition AddExecutors (es : list Executor) (m : migrate) : migrate :=
  mkMigrate (schemaTable m) (executors m ++ es) (handlers m).

Definition AddHandlers (hs : list Handler) (m : migrate) : migrate :=
  mkMigrate (schemaTable m) (executors m) (handlers m ++ hs).

Definition WithTableName (tableName : string) : Option :=
  λ m, mkMigrate tableName (executors m) (handlers m).

Definition WithExecutors (es : list Executor) : Option := AddExecutors es.

Definition New (options : list Option) : migrate :=
  foldl (λ m o, o m) (mkMigrate defaultSchemaTableName [] []) options.

(** Step 1 of [initHandlers]: ask every executor in registration order
    and append its handlers to [m.handlers]; the first error ends the
    loop with what was appended so far. Returns the executors (their
    state may have changed), the handlers and the error. *)
Fixpoint collect (es : list Executor) (hs : list Handler)
  : list Executor * list Handler * option error :=
  match es with
  | [] => ([], hs, None)
  | e :: es' =>
      let '((l, err), e') := ListHandlers e in
      match err with
      | Some x => (e' :: es', hs, Some x)
      | None =>
          let '(es'', hs', r) := collect es' (hs ++ l) in
          (e' :: es'', hs', r)
      end
  end.

(** Step 3 of [initHandlers]: the walk over adjacent pairs,
    [for i := 0; i < length-1; i++]. *)
Fixpoint check_index (hs : list Handler) : option error :=
  match hs with
  | a :: (b :: _) as tl =>
      let result := wrap (GetIndex b - GetIndex a) in
      if result =? 1 then check_index tl
      else if result =? 0 then Some (ErrDuplicateIndex (GetIndex a))
      else Some (ErrIndexGapLarge (GetIndex a))
  | _ => None
  end.

Context `{SortSlice}.

Definition initHandlers (m : migrate) : migrate * option error :=
  let '(es, hs, err) := collect (executors m) (handlers m) in
  match err with
  | Some e => (mkMigrate (schemaTable m) es hs, Some e)
  | None =>
      let hs' := sort_slice hs in
      (mkMigrate (schemaTable m) es hs', check_index hs')
  end.

Record schema : Type := mkSchema { version : Z; dirty : bool }.

Definition initAndGetSchema (m : migrate) (w : World)
  : (error + schema) * World :=
  let '(r, w1) := db_Query (selectSchemaQuery (schemaTable m)) (schemaTable m) w in
  match r with
  | inl err => (inl (WithStack err), w1)
  | inr rows =>
      let '(r2, w2) :=
        match rows with
        | [] =>                                   (* !rows.Next() *)
            let '(err, w2) := db_Exec (insertDefaultSchema (schemaTable m)) w1 in
            match err with
            | Some e => (inl (WithStack e), w2)
            | None => (inr (mkSchema 0 false), w2)
            end
        | row :: _ =>                             (* rows.Scan *)
            match scan_bool (row_dirty row) with
            | inl e => (inl (WithStack e), w1)
            | inr d => (inr (mkSchema (row_version row) d), w1)
            end
        end in
      match r2 with
      | inl e => (inl e, w2)
      | inr sche =>
          if dirty sche then (inl (ErrFindIndexDirty (version sche)), w2)
          else (inr sche, w2)
      end
  end.

(** How a call of [Run] ends: it returns its error result, or an index
    expression panics. *)
Inductive outcome : Type :=
| Ret (err : option error)
| Panic.

(** [m.handlers[idx]]; out of range panics. *)
Definition handler_at (hs : list Handler) (idx : Z) : option Handler :=
  if idx <? 0 then None else hs !! Z.to_nat idx.

Definition call_Exec (h : Handler) (w : World) : option error * World :=
  let '(u, err) := Exec h (udata w) in
  (err, mkWorld u (tables w) (faults w) (trace w ++ [EvExec (GetIndex h)])).

(** Step 4 of [Run]: [for idx := schema.version; idx < len(m.handlers);
    idx++]. [n] is the number of iterations left, [len(m.handlers) - idx]
    (every iteration a non-negative [idx] admits). *)
Fixpoint exec_loop (table : string) (hs : list Handler) (n : nat) (idx : Z)
    (w : World) : outcome * World :=
  match n with
  | O => (Ret None, w)
  | S n' =>
      match handler_at hs idx with
      | None => (Panic, w)
      | Some h =>
          let '(err, w1) := call_Exec h w in
          match err with
          | Some e =>
              let '(innerErr, w2) :=
                db_Exec (updateDirtyQuery table (GetIndex h) 1) w1 in
              match innerErr with
              | Some ie => (Ret (Some (WithStack ie)), w2)
              | None => (Ret (Some e), w2)
              end
          | None =>
              let '(err2, w2) :=
                db_Exec (updateSchemaQuery table (GetIndex h)) w1 in
              match err2 with
              | Some e2 => (Ret (Some (WithStack e2)), w2)
              | None => exec_loop table hs n' (idx + 1) w2
              end
          end
      end
  end.

Definition len (hs : list Handler) : Z := Z.of_nat (length hs).

Definition Run (m : migrate) (w : World) : outcome * migrate * World :=
  let '(m1, err) := initHandlers m in
  match err with
  | Some e => (Ret (Some e), m1, w)
  | None =>
      let '(err1, w1) := db_Exec (createSchemaTableQuery (schemaTable m1)) w in
      match err1 with
      | Some e => (Ret (Some (WithStack e)), m1, w1)
      | None =>
          let '(r, w2) := initAndGetSchema m1 w1 in
          match r with
          | inl e => (Ret (Some e), m1, w2)
          | inr sche =>
              if version sche >? len (handlers m1)
              then (Ret (Some ErrIndexLessDatabaseVersion), m1, w2)
              else
                let '(o, w3) :=
                  exec_loop (schemaTable m1) (handlers m1)
                    (Z.to_nat (len (handlers m1) - version sche))
                    (version sche) w2 in
                (o, m1, w3)
          end
      end
  end.

End Migrate.

(** ** Package [concrete] *)

Module concrete.

(** An entry of a directory listing ([os.DirEntry]). *)
Record DirEntry : Type := mkDirEntry { Name : string; IsDir : bool }.

(** An opened file: the bytes [io.Copy] obtains from it and the result
    of [Close]. *)
Record File : Type := mkFile { data : string; Close : option error }.

(** The file system the SQL executor reads. [Open dir name] stands for
    [os.Open(path.Join(dir, name))]. *)
Record FS : Type := mkFS {
  ReadDir : string → error + list DirEntry;
  Open : string → string → error + File
}.

Definition sqlExt : string := ".sql".
Definition defaultSourceDir : string := "./migration".

(** [path.Ext]: the suffix from the final dot of the final
    slash-separated element; empty without a dot. [r] is the path read
    backwards, as the loop [for i := len(path)-1; i >= 0 && path[i] !=
    '/'; i--] reads it. *)
Fixpoint ext_scan (r acc : list ascii) : list ascii :=
  match r with
  | [] => []
  | c :: r' =>
      if Ascii.eqb c "/"%char then []
      else if Ascii.eqb c "."%char then c :: acc
      else ext_scan r' (c :: acc)
  end.

Definition Ext (path : string) : string :=
  String.string_of_list_ascii (ext_scan (rev (String.list_ascii_of_string path)) []).

(** [strings.Split(s, sep)] for a separator of one character. *)
Fixpoint Split (s : string) (sep : ascii) : list string :=
  match s with
  | EmptyString => [EmptyString]
  | String c s' =>
      if Ascii.eqb c sep then EmptyString :: Split s' sep
      else match Split s' sep with
           | x :: xs => String c x :: xs
           | [] => [String c EmptyString]
           end
  end.

Definition digit (c : ascii) : option Z :=
  let n := Z.of_N (N_of_ascii c) in
  if (48 <=? n) && (n <=? 57) then Some (n - 48) else None.

Fixpoint parse_digits (s : string) (acc : Z) : option Z :=
  match s with
  | EmptyString => Some acc
  | String c s' =>
      match digit c with
      | None => None
      | Some d => parse_digits s' (10 * acc + d)
      end
  end.

(** [strconv.ParseInt(s, 10, 64)]; [None] for a syntax or range error. *)
Definition ParseInt (s : string) : option Z :=
  match s with
  | EmptyString => None
  | String c s' =>
      let '(neg, body) :=
        if Ascii.eqb c "+"%char then (false, s')
        else if Ascii.eqb c "-"%char then (true, s')
        else (false, s) in
      match body with
      | EmptyString => None
      | _ =>
          match parse_digits body 0 with
          | None => None
          | Some n =>
              let v := if neg : bool then - n else n in
              if (int_min <=? v) && (v <=? int_max) then Some v else None
          end
      end
  end.

Record fileInfo : Type := mkFileInfo {
  index : Z;
  fileName : string;
  ext : string
}.

(** The loop of [getFilesByDir] over the directory entries. *)
Fixpoint scan_entries (dirs : list DirEntry) (fileInfos : list fileInfo)
  : error + list fileInfo :=
  match dirs with
  | [] => inr fileInfos
  | dir :: rest =>
      if IsDir dir then inl ErrFileType
      else
        let fileName := Name dir in
        let ext := Ext fileName in
        if negb (String.eqb ext sqlExt) then scan_entries rest fileInfos
        else
          match ParseInt (hd EmptyString (Split fileName "_"%char)) with
          | None => inl ErrFileName
          | Some num =>
              scan_entries rest (fileInfos ++ [mkFileInfo num fileName ext])
          end
  end.

Definition getFilesByDir (fs : FS) (dir : string) : error + list fileInfo :=
  match ReadDir fs dir with
  | inl err => inl err
  | inr dirs => scan_entries dirs []
  end.

Section Handlers.
Context {U : Type}.

(** Modelled from the spec: the declaration of [baseHandler] is not among
    the sources; both handler types embed it, build it as
    [baseHandler{index}] and take their [GetIndex() → integer] from it. *)
Record baseHandler : Type := mkBaseHandler { base_index : Z }.

Definition baseHandler_GetIndex (b : baseHandler) : Z := base_index b.

(** [GoFunc], a [func(ctx context.Context) error] acting on the
    application data. *)
Definition GoFunc : Type := U → U * option error.

Record GoHandler : Type := mkGoHandler {
  go_base : baseHandler;
  executor : GoFunc
}.

Definition NewGoHandler (index : Z) (f : GoFunc) : GoHandler :=
  mkGoHandler (mkBaseHandler index) f.

(** [*GoHandler] as a [migrate.Handler]. *)
Definition GoHandler_Handler (g : GoHandler) : @Handler U :=
  mkHandler (baseHandler_GetIndex (go_base g)) (λ u, executor g u).

Record goExecutor : Type := mkGoExecutor { go_handlers : list GoHandler }.

Definition goExecutor_ListHandlers (g : goExecutor)
  : (list (@Handler U) * option error) * goExecutor :=
  ((map GoHandler_Handler (go_handlers g), None), g).

Definition NewGoExecutor (handlers : list GoHandler) : @Executor U :=
  mkExecutor goExecutor (mkGoExecutor handlers) goExecutor_ListHandlers.

(** What the database does with one statement run in a transaction of
    its own. *)
Inductive TxResult : Type :=
| BeginFailed (err : error)          (* db.Begin failed *)
| ExecFailed (err : error) (u : U)   (* tx.Exec failed; [u] after Rollback *)
| Committed (u : U).

(** The connection [*sql.DB] as the handlers use it. *)
Definition DB : Type := string → U → TxResult.

Record sqlHandler : Type := mkSqlHandler {
  sql_base : baseHandler;
  query : string;
  sql_db : DB
}.

Definition sqlErrorFmt (q : string) : string := "error sql is : " +:+ q.

Definition sqlHandler_Exec (s : sqlHandler) (u : U) : U * option error :=
  match sql_db s (query s) u with
  | BeginFailed err => (u, Some (WithStack err))
  | ExecFailed err u' => (u', Some (WithMessage err (sqlErrorFmt (query s))))
  | Committed u' => (u', None)
  end.

Definition sqlHandler_Handler (s : sqlHandler) : @Handler U :=
  mkHandler (baseHandler_GetIndex (sql_base s)) (sqlHandler_Exec s).

Record sqlExecutor : Type := mkSqlExecutor {
  sourceDir : string;
  db : DB;
  handlers : list (@Handler U)
}.

(** Step 2 of [initHandlers]: one [sqlHandler] per file. The error of
    [io.Copy] is overwritten and reading a buffer in full cannot fail,
    which leaves [os.Open] and [Close] as the failing calls. *)
Fixpoint load_files (fs : FS) (s : sqlExecutor) (files : list fileInfo)
    (acc : list (@Handler U)) : error + list (@Handler U) :=
  match files with
  | [] => inr acc
  | f :: rest =>
      match Open fs (sourceDir s) (fileName f) with
      | inl err => inl (WithStack err)
      | inr file =>
          match Close file with
          | Some err => inl (WithStack err)
          | None =>
              load_files fs s rest
                (acc ++ [sqlHandler_Handler
                           (mkSqlHandler (mkBaseHandler (index f)) (data file) (db s))])
          end
      end
  end.

Definition initHandlers (fs : FS) (s : sqlExecutor)
  : option error * sqlExecutor :=
  match getFilesByDir fs (sourceDir s) with
  | inl err => (None, s)                      (* if err != nil { return nil } *)
  | inr files =>
      match load_files fs s files [] with
      | inl err => (Some err, s)
      | inr handlers => (None, mkSqlExecutor (sourceDir s) (db s) handlers)
      end
  end.

Definition sqlExecutor_ListHandlers (fs : FS) (s : sqlExecutor)
  : (list (@Handler U) * option error) * sqlExecutor :=
  match handlers s with
  | _ :: _ => ((handlers s, None), s)
  | [] =>
      let '(err, s') := initHandlers fs s in
      ((handlers s', withStack err), s')
  end.

Definition NewSQLExecutor (fs : FS) (db : DB) (sourceDir : string)
  : @Executor U :=
  let sourceDir := if String.eqb sourceDir "" then defaultSourceDir else sourceDir in
  mkExecutor sqlExecutor (mkSqlExecutor sourceDir db [])
    (sqlExecutor_ListHandlers fs).

End Handlers.

End concrete.

(** The file [f] of directory [dir] opens and closes without error. *)
Definition opens (fs : concrete.FS) (dir : string) (f : concrete.fileInfo) : Prop :=
  ∃ file, concrete.Open fs dir (concrete.fileName f) = inr file ∧
          concrete.Close file = None.

(** * Vocabulary of the properties *)

Section Vocabulary.
Context {U : Type}.

Definition int_index (h : @Handler U) : Prop := is_int (GetIndex h).

(** The indices of [hs] are [x, x+1, ..., x+len-1]. *)
Definition dense_from (x : Z) (hs : list (@Handler U)) : Prop :=
  GetIndex <$> hs = seqZ x (len hs).

(** The failure the connection reports for the [i]-th statement from
    now on, if any. *)
Definition fault_at (w : @World U) (i : nat) : option error :=
  default None (faults w !! i).

(** The connection reports no failure from now on. *)
Definition calm (w : @World U) : Prop := ∀ i, fault_at w i = None.

(** The indices of the handlers executed so far, in order. *)
Definition executed (w : @World U) : list Z :=
  omap (λ ev, match ev with EvExec i => Some i | EvDB _ _ => None end) (trace w).

(** Statements of the loading phase of [Run] (create, select, insert the
    default row), as opposed to handler executions and progress writes. *)
Definition is_load (ev : Event) : bool :=
  match ev with
  | EvDB (createSchemaTableQuery _) _
  | EvDB (selectSchemaQuery _) _
  | EvDB (insertDefaultSchema _) _ => true
  | _ => false
  end.

(** Handler executions and progress writes logged so far, in order. *)
Definition activity (w : @World U) : list Event :=
  List.filter (λ ev, negb (is_load ev)) (trace w).

(** Every handler of [hs], run in order from the data [u], succeeds. *)
Fixpoint all_succeed (hs : list (@Handler U)) (u : U) : Prop :=
  match hs with
  | [] => True
  | h :: tl => (Exec h u).2 = None ∧ all_succeed tl (Exec h u).1
  end.

(** The data after the handlers of [hs] ran in order. *)
Definition run_all (hs : list (@Handler U)) (u : U) : U :=
  foldl (λ u h, (Exec h u).1) u hs.

(** The rows after [UPDATE ... SET version = v]. *)
Definition advance_rows (v : Z) (rows : list Row) : list Row :=
  map (λ r, mkRow v (row_dirty r)) rows.

(** The world after handler [h] succeeded and its progress was written. *)
Definition step_ok (t : string) (h : @Handler U) (w : @World U) : @World U :=
  mkWorld (Exec h (udata w)).1
    (<[t := advance_rows (GetIndex h) (default [] (tables w !! t))]> (tables w))
    (tail (faults w))
    ((trace w ++ [EvExec (GetIndex h)]) ++
     [EvDB (updateSchemaQuery t (GetIndex h)) None]).

Definition after_ok (t : string) (hs : list (@Handler U)) (w : @World U)
  : @World U :=
  foldl (λ w h, step_ok t h w) w hs.

(** What the executors of [m] list, and whether all of them list
    without error. *)
Definition listed (e : @Executor U) : list (@Handler U) := (ListHandlers e).1.1.
Definition lists_ok (e : @Executor U) : Prop := (ListHandlers e).1.2 = None.

(** Asked a second time, the executor lists without error the handlers
    it listed the first time. *)
Definition stable (e : @Executor U) : Prop :=
  lists_ok (ListHandlers e).2 ∧ listed (ListHandlers e).2 = listed e.

(** The working set [initHandlers] assembles before sorting: the
    handlers already in [m] followed by every executor's list. *)
Definition collected (m : @migrate U) : list (@Handler U) :=
  handlers m ++ concat (map listed (executors m)).

(** The schema table holds no progress yet: it is absent, empty, or its
    one row is [version = 0, dirty = 0]. *)
Definition at_zero (t : string) (w : @World U) : Prop :=
  tables w !! t = None ∨ tables w !! t = Some [] ∨
  tables w !! t = Some [mkRow 0 0].


(** The world once [Run] has created the table (already there) and
    read the existing row: two statements were sent. *)
Definition loaded_row (t : string) (w : @World U) : @World U :=
  mkWorld (udata w) (tables w) (tail (tail (faults w)))
    ((trace w ++ [EvDB (createSchemaTableQuery t) None]) ++
     [EvDB (selectSchemaQuery t) None]).

End Vocabulary.

(** * Sample programs

    Concrete handlers, executors and worlds on which the properties are
    exercised. The application data is the list of the indices whose
    handler ran to completion. *)

Module sample.

Definition ok (i : Z) : @concrete.GoHandler (list Z) :=
  concrete.NewGoHandler i (λ u, (u ++ [i], None)).

Definition failing (i : Z) (msg : string) : @concrete.GoHandler (list Z) :=
  concrete.NewGoHandler i (λ u, (u, Some (Foreign msg))).

(** A database without tables, a connection without failures, nothing
    executed yet. *)
Definition fresh : @World (list Z) := mkWorld [] ∅ [] [].

(** A database whose schema table holds the given row. *)
Definition with_row (v d : Z) : @World (list Z) :=
  mkWorld [] {[ defaultSchemaTableName := [mkRow v d] ]} [] [].

(** The connection's statements fail as scheduled. *)
Definition with_faults (fs : list (option error)) (w : @World (list Z))
  : @World (list Z) :=
  mkWorld (udata w) (tables w) fs (trace w).

(** [migrate.New(db, migrate.WithExecutors(concrete.NewGoExecutor(hs...)))] *)
Definition of_go (hs : list (@concrete.GoHandler (list Z))) : @migrate (list Z) :=
  New [WithExecutors [concrete.NewGoExecutor hs]].

(** Two executors, as in the example program: Go handlers and SQL
    files. *)
Definition of_two (hs1 hs2 : list (@concrete.GoHandler (list Z)))
  : @migrate (list Z) :=
  New [WithExecutors [concrete.NewGoExecutor hs1; concrete.NewGoExecutor hs2]].

(** A file system in which no directory can be read. *)
Definition unreadable : concrete.FS :=
  concrete.mkFS (λ _, inl (Foreign "open ./migration: no such file or directory"))
    (λ _ _, inl (Foreign "no such file or directory")).

(** A database that commits every statement, logging nothing. *)
Definition commits : @concrete.DB (list Z) := λ _ u, concrete.Committed u.

Definition of_sql (fs : concrete.FS) : @migrate (list Z) :=
  New [WithExecutors [concrete.NewSQLExecutor fs commits ""]].

(** A directory with two SQL files, a file that is not SQL, and their
    contents. *)
Definition two_files : concrete.FS :=
  concrete.mkFS
    (λ dir, if String.eqb dir "./migration"
            then inr [concrete.mkDirEntry "1_init.sql" false;
                      concrete.mkDirEntry "2_users.sql" false;
                      concrete.mkDirEntry "README.md" false]
            else inl (Foreign "no such file or directory"))
    (λ dir name,
       if String.eqb name "1_init.sql"
       then inr (concrete.mkFile "CREATE TABLE t (id int)" None)
       else if String.eqb name "2_users.sql"
       then inr (concrete.mkFile "CREATE TABLE users (id int)" None)
       else inl (Foreign "no such file or directory")).

(** A directory whose one SQL file cannot be opened. *)
Definition unopenable : concrete.FS :=
  concrete.mkFS
    (λ _, inr [concrete.mkDirEntry "1_init.sql" false])
    (λ _ _, inl (Foreign "open 1_init.sql: permission denied")).

(** A directory with a SQL file named without an underscore. *)
Definition underscoreless : concrete.FS :=
  concrete.mkFS
    (λ _, inr [concrete.mkDirEntry "1_init.sql" false;
               concrete.mkDirEntry "12.sql" false])
    (λ _ _, inr (concrete.mkFile "SELECT 1" None)).

(** Go handlers around a SQL executor whose file cannot be opened. *)
Definition around_unopenable : @migrate (list Z) :=
  New [WithExecutors
         [concrete.NewGoExecutor [ok 1];
          concrete.NewSQLExecutor unopenable commits "";
          concrete.NewGoExecutor [ok 2]]].

(** A fresh SQL executor on the default directory. *)
Definition sql_executor : @concrete.sqlExecutor (list Z) :=
  concrete.mkSqlExecutor concrete.defaultSourceDir commits [].


(** A directory that holds a subdirectory. *)
Definition with_subdir : concrete.FS :=
  concrete.mkFS
    (λ _, inr [concrete.mkDirEntry "1_init.sql" false;
               concrete.mkDirEntry "old" true])
    (λ _ _, inr (concrete.mkFile "SELECT 1" None)).

End sample.

(** * A [SortSlice] for evaluation: merge sort on the index *)

Section MergeSort.
Context {U : Type}.

#[local] Instance index_le_dec : RelDecision (@index_le U).
Proof. intros a b. unfold index_le. apply _. Defined.

#[local] Instance index_le_total : Total (@index_le U).
Proof. intros a b. unfold index_le. lia. Qed.

#[local] Instance index_le_trans : Transitive (@index_le U).
Proof. intros a b c. unfold index_le. lia. Qed.

#[export] Instance merge_SortSlice : @SortSlice U := {|
  sort_slice := merge_sort index_le;
  sort_slice_perm := merge_sort_Permutation index_le;
  sort_slice_sorted := StronglySorted_merge_sort index_le
|}.

End MergeSort.

(** * Properties *)

(** ** The functions of package [concrete] on samples *)

Example Ext_samples :
  concrete.Ext "1_init.sql" = ".sql" ∧ concrete.Ext "a.b/c" = "" ∧
  concrete.Ext "README" = "" ∧ concrete.Ext "x.tar.gz" = ".gz".
Proof. repeat split. Qed.

Example ParseInt_samples :
  concrete.ParseInt "12" = Some 12 ∧ concrete.ParseInt "-7" = Some (-7) ∧
  concrete.ParseInt "+3" = Some 3 ∧ concrete.ParseInt "" = None ∧
  concrete.ParseInt "-" = None ∧ concrete.ParseInt "1a" = None ∧
  concrete.ParseInt "9223372036854775807" = Some int_max ∧
  concrete.ParseInt "9223372036854775808" = None ∧
  concrete.ParseInt "-9223372036854775808" = Some int_min.
Proof. repeat split. Qed.

Example getFilesByDir_samples :
  concrete.getFilesByDir sample.two_files "./migration" =
    inr [concrete.mkFileInfo 1 "1_init.sql" ".sql";
         concrete.mkFileInfo 2 "2_users.sql" ".sql"] ∧
  concrete.getFilesByDir sample.with_subdir "./migration" = inl ErrFileType ∧
  concrete.getFilesByDir sample.unreadable "./migration" =
    inl (Foreign "open ./migration: no such file or directory").
Proof. repeat split. Qed.

(** The SQL executor lists one handler per SQL file, and memoizes. *)
Example sqlExecutor_lists_files :
  let e := concrete.NewSQLExecutor sample.two_files sample.commits "" in
  GetIndex <$> (ListHandlers e).1.1 = [1; 2] ∧ (ListHandlers e).1.2 = None ∧
  GetIndex <$> (ListHandlers (ListHandlers e).2).1.1 = [1; 2].
Proof. repeat split. Qed.

(** A run over the SQL files and two Go handlers, as in the example
    program. *)
Example Run_example_program :
  let m := New [WithTableName "schema_migrations";
                WithExecutors
                  [concrete.NewGoExecutor [sample.ok 3; sample.ok 4];
                   concrete.NewSQLExecutor sample.two_files sample.commits ""]] in
  (Run m sample.fresh).1.1 = Ret None ∧
  executed (Run m sample.fresh).2 = [1; 2; 3; 4] ∧
  tables (Run m sample.fresh).2 !! "schema_migrations" = Some [mkRow 4 0].
Proof. vm_compute. repeat split. Qed.

(** ** Integers *)

Lemma wrap_id z : is_int z → wrap z = z.
Proof. unfold is_int, int_min, int_max, wrap. intros. rewrite Z.mod_small; lia. Qed.

(** For two [int]s in order, the wrapped difference is 1 (resp. 0)
    exactly when the true difference is. *)
Lemma wrap_gap a b :
  is_int a → is_int b → a ≤ b →
  (wrap (b - a) = 1 ↔ b = a + 1) ∧ (wrap (b - a) = 0 ↔ b = a).
Proof.
  unfold is_int, int_min, int_max, wrap. intros Ha Hb Hab.
  destruct (decide (b - a < 2 ^ 63)) as [Hs|Hs].
  - rewrite Z.mod_small by lia. lia.
  - replace (b - a + 2 ^ 63) with ((b - a - 2 ^ 63) + 1 * 2 ^ 64) by lia.
    rewrite Z.mod_add by lia. rewrite Z.mod_small by lia. lia.
Qed.

Section Facts.
Context {U : Type}.
Implicit Types (h a b : @Handler U) (hs l : list (@Handler U)).
Implicit Types (w : @World U) (m : @migrate U).

(** ** The index check *)

Lemma len_cons h hs : len (h :: hs) = len hs + 1.
Proof. unfold len. simpl length. lia. Qed.

Lemma len_nonneg hs : 0 ≤ len hs.
Proof. unfold len. lia. Qed.

Lemma dense_from_cons (x : Z) h hs :
  dense_from x (h :: hs) ↔ GetIndex h = x ∧ dense_from (x + 1) hs.
Proof.
  unfold dense_from. rewrite len_cons.
  rewrite seqZ_cons by (pose proof (len_nonneg hs); lia).
  replace (Z.pred (len hs + 1)) with (len hs) by lia.
  replace (Z.succ x) with (x + 1) by lia. rewrite fmap_cons.
  split; [intros [= -> ?]; auto | intros [-> ->]; auto].
Qed.

Lemma dense_from_nil (x : Z) : dense_from x ([] : list (@Handler U)).
Proof. reflexivity. Qed.

Lemma check_index_cons2 a b tl :
  check_index (a :: b :: tl) =
    if wrap (GetIndex b - GetIndex a) =? 1 then check_index (b :: tl)
    else if wrap (GetIndex b - GetIndex a) =? 0
         then Some (ErrDuplicateIndex (GetIndex a))
         else Some (ErrIndexGapLarge (GetIndex a)).
Proof. reflexivity. Qed.

(** The check passes on a sorted slice exactly when its indices are
    consecutive from the first one. *)
Lemma check_index_dense h hs :
  Forall int_index (h :: hs) → StronglySorted index_le (h :: hs) →
  check_index (h :: hs) = None ↔ dense_from (GetIndex h) (h :: hs).
Proof.
  revert h. induction hs as [|b tl IH]; intros h Hint Hs.
  - split; [|done]. intros _. apply dense_from_cons. split; [done|apply dense_from_nil].
  - rewrite check_index_cons2, dense_from_cons.
    inversion Hint as [|?? Hh Hint']; subst. inversion Hint' as [|?? Hb _]; subst.
    inversion Hs as [|?? Hs' Hle]; subst. inversion Hle as [|?? Hab _]; subst.
    destruct (wrap_gap (GetIndex h) (GetIndex b) Hh Hb Hab) as [H1 H0].
    destruct (Z.eqb_spec (wrap (GetIndex b - GetIndex h)) 1) as [E1|E1].
    + rewrite (IH b Hint' Hs'). apply H1 in E1. rewrite <- E1.
      split; [by intros ?|by intros [_ ?]].
    + assert (GetIndex b ≠ GetIndex h + 1) by (intros E; apply E1, H1, E).
      split.
      * destruct (_ =? 0); discriminate.
      * intros [_ Hd]. apply dense_from_cons in Hd as [? _]. done.
Qed.

(** The walk skips a prefix whose gaps are all 1. *)
Lemma check_index_skip pre a rest (x : Z) :
  Forall int_index (pre ++ [a]) → StronglySorted index_le (pre ++ [a]) →
  dense_from x (pre ++ [a]) →
  check_index (pre ++ a :: rest) = check_index (a :: rest).
Proof.
  revert x. induction pre as [|p pre IH]; intros x Hint Hs Hd; [done|].
  cbn [app] in *. apply dense_from_cons in Hd as [Hp Hd].
  inversion Hint as [|?? Hpi Hint']; subst. inversion Hs as [|?? Hs' Hle]; subst.
  specialize (IH _ Hint' Hs' Hd).
  destruct pre as [|q pre]; cbn [app] in *.
  - apply dense_from_cons in Hd as [Ha _].
    rewrite check_index_cons2.
    inversion Hint' as [|?? Hai _]; subst.
    rewrite wrap_id by (replace (GetIndex a - GetIndex p) with 1 by lia; compute; split; discriminate).
    replace (GetIndex a - GetIndex p) with 1 by lia. done.
  - apply dense_from_cons in Hd as [Hq _].
    rewrite check_index_cons2.
    rewrite wrap_id by (replace (GetIndex q - GetIndex p) with 1 by lia; compute; split; discriminate).
    replace (GetIndex q - GetIndex p) with 1 by lia. simpl. exact IH.
Qed.

(** At the first pair that is not 1 apart, the walk reports a duplicate
    for a gap of 0 and a gap otherwise, naming the earlier index. *)
Lemma check_index_pair a b rest :
  int_index a → int_index b → GetIndex a ≤ GetIndex b →
  (GetIndex b = GetIndex a →
     check_index (a :: b :: rest) = Some (ErrDuplicateIndex (GetIndex a))) ∧
  (GetIndex a + 1 < GetIndex b →
     check_index (a :: b :: rest) = Some (ErrIndexGapLarge (GetIndex a))).
Proof.
  intros Ha Hb Hab. rewrite check_index_cons2.
  destruct (wrap_gap _ _ Ha Hb Hab) as [H1 H0].
  split; intros Hg.
  - destruct (Z.eqb_spec (wrap (GetIndex b - GetIndex a)) 1) as [E|E];
      [apply H1 in E; lia|].
    destruct (Z.eqb_spec (wrap (GetIndex b - GetIndex a)) 0) as [E'|E']; [done|].
    exfalso. apply E', H0. done.
  - destruct (Z.eqb_spec (wrap (GetIndex b - GetIndex a)) 1) as [E|E];
      [apply H1 in E; lia|].
    destruct (Z.eqb_spec (wrap (GetIndex b - GetIndex a)) 0) as [E'|E']; [|done].
    apply H0 in E'. lia.
Qed.

End Facts.

(** ** The database connection *)

Section Connection.
Context {U : Type}.
Implicit Types (w : @World U) (q : Query) (t : string).

Lemma next_fault_eq w : next_fault w = (fault_at w 0, tail (faults w)).
Proof. unfold next_fault, fault_at. by destruct (faults w). Qed.

Lemma fault_at_tail w (w' : @World U) i :
  faults w' = tail (faults w) → fault_at w' i = fault_at w (S i).
Proof. unfold fault_at. intros ->. by destruct (faults w). Qed.

Lemma fault_at_drop w (w' : @World U) k i :
  faults w' = drop k (faults w) → fault_at w' i = fault_at w (k + i).
Proof. unfold fault_at. intros ->. by rewrite lookup_drop. Qed.

Lemma calm_nil w : faults w = [] → calm w.
Proof. intros E i. unfold fault_at. by rewrite E, lookup_nil. Qed.

(** A statement that the connection fails leaves the tables alone. *)
Lemma db_Exec_fault q w e :
  fault_at w 0 = Some e →
  db_Exec q w =
    (Some e, mkWorld (udata w) (tables w) (tail (faults w))
               (trace w ++ [EvDB q (Some e)])).
Proof. intros Hf. unfold db_Exec. by rewrite next_fault_eq, Hf. Qed.

Lemma db_Exec_ok q w ts :
  fault_at w 0 = None → stmt_effect q (tables w) = inr ts →
  db_Exec q w =
    (None, mkWorld (udata w) ts (tail (faults w)) (trace w ++ [EvDB q None])).
Proof. intros Hf He. unfold db_Exec. by rewrite next_fault_eq, Hf, He. Qed.

(** Whatever a statement does, it runs no handler, leaves the
    application data alone and consumes one scheduled failure. *)
Lemma db_Exec_frame q w r w' :
  db_Exec q w = (r, w') →
  udata w' = udata w ∧ executed w' = executed w ∧
  faults w' = tail (faults w) ∧
  ∃ ev, trace w' = trace w ++ [EvDB q ev].
Proof.
  unfold db_Exec. rewrite next_fault_eq.
  destruct (fault_at w 0); [|destruct (stmt_effect q (tables w))];
    intros [= <- <-]; simpl; (split; [done|]);
    (split; [unfold executed; simpl; rewrite omap_app; simpl; by rewrite app_nil_r|]);
    (split; [done|]); eauto.
Qed.

Lemma db_Query_frame q t w r w' :
  db_Query q t w = (r, w') →
  udata w' = udata w ∧ executed w' = executed w ∧ tables w' = tables w ∧
  faults w' = tail (faults w) ∧
  ∃ ev, trace w' = trace w ++ [EvDB q ev].
Proof.
  unfold db_Query. rewrite next_fault_eq.
  destruct (fault_at w 0); [|destruct (tables w !! t)];
    intros [= <- <-]; simpl; (split; [done|]);
    (split; [unfold executed; simpl; rewrite omap_app; simpl; by rewrite app_nil_r|]);
    (split; [done|]); (split; [done|]); eauto.
Qed.

Lemma db_Query_ok q t w rows :
  fault_at w 0 = None → tables w !! t = Some rows →
  db_Query q t w =
    (inr rows, mkWorld (udata w) (tables w) (tail (faults w))
                 (trace w ++ [EvDB q None])).
Proof. intros Hf Ht. unfold db_Query. by rewrite next_fault_eq, Hf, Ht. Qed.

(** [UPDATE ... SET version = ?] on an existing table: every row gets the
    version, every row keeps its dirty column, other tables are
    untouched. *)
Lemma updateSchema_effect t v (ts : gmap string (list Row)) rows :
  ts !! t = Some rows →
  stmt_effect (updateSchemaQuery t v) ts = inr (<[t := advance_rows v rows]> ts).
Proof. intros Ht. unfold stmt_effect. by rewrite Ht. Qed.

Lemma updateDirty_effect t v d (ts : gmap string (list Row)) rows :
  ts !! t = Some rows →
  stmt_effect (updateDirtyQuery t v d) ts =
    inr (<[t := map (λ _, mkRow v d) rows]> ts).
Proof. intros Ht. unfold stmt_effect. by rewrite Ht. Qed.

Lemma advance_rows_dirty v rows :
  map row_dirty (advance_rows v rows) = map row_dirty rows.
Proof. unfold advance_rows. rewrite map_map. by apply map_ext. Qed.

Lemma advance_rows_version v rows :
  Forall (λ r, row_version r = v) (advance_rows v rows).
Proof. unfold advance_rows. apply List.Forall_map. by apply Forall_true. Qed.

Lemma advance_rows_twice v v' rows :
  advance_rows v' (advance_rows v rows) = advance_rows v' rows.
Proof. unfold advance_rows. rewrite map_map. by apply map_ext. Qed.

End Connection.

(** ** The execution loop *)

Section Loop.
Context {U : Type}.
Implicit Types (h : @Handler U) (hs pre ok post : list (@Handler U)).
Implicit Types (w : @World U) (t : string).

Lemma len_app hs1 hs2 : len (hs1 ++ hs2) = len hs1 + len hs2.
Proof. unfold len. rewrite length_app. lia. Qed.

Lemma handler_at_middle pre h post :
  handler_at (pre ++ h :: post) (len pre) = Some h.
Proof.
  unfold handler_at, len.
  destruct (Z.ltb_spec (Z.of_nat (length pre)) 0); [lia|].
  rewrite Nat2Z.id. by rewrite list_lookup_middle.
Qed.

Lemma handler_at_negative hs idx : idx < 0 → handler_at hs idx = None.
Proof. intros. unfold handler_at. by destruct (Z.ltb_spec idx 0); [|lia]. Qed.

(** One iteration whose handler succeeds and whose progress write goes
    through. *)
Lemma exec_loop_step_ok t hs n idx h w rows :
  handler_at hs idx = Some h → (Exec h (udata w)).2 = None →
  fault_at w 0 = None → tables w !! t = Some rows →
  exec_loop t hs (S n) idx w = exec_loop t hs n (idx + 1) (step_ok t h w).
Proof.
  intros Hat Hok Hf Ht. simpl. rewrite Hat. unfold call_Exec.
  destruct (Exec h (udata w)) as [u e] eqn:He. simpl in Hok. subst e.
  erewrite db_Exec_ok; [| exact Hf | simpl; by apply updateSchema_effect].
  unfold step_ok. simpl. by rewrite He, Ht.
Qed.

(** One iteration whose handler fails: the dirty mark is written and the
    handler's own error is returned ... *)
Lemma exec_loop_fail_marked t hs n idx h w u e rows :
  handler_at hs idx = Some h → Exec h (udata w) = (u, Some e) →
  fault_at w 0 = None → tables w !! t = Some rows →
  exec_loop t hs (S n) idx w =
    (Ret (Some e),
     mkWorld u (<[t := map (λ _, mkRow (GetIndex h) 1) rows]> (tables w))
       (tail (faults w))
       ((trace w ++ [EvExec (GetIndex h)]) ++
        [EvDB (updateDirtyQuery t (GetIndex h) 1) None])).
Proof.
  intros Hat He Hf Ht. simpl. rewrite Hat. unfold call_Exec. rewrite He.
  erewrite db_Exec_ok; [| exact Hf | simpl; by apply updateDirty_effect].
  done.
Qed.

(** ... unless the write of the dirty mark fails, whose error is
    returned instead. *)
Lemma exec_loop_fail_unmarked t hs n idx h w u e ie :
  handler_at hs idx = Some h → Exec h (udata w) = (u, Some e) →
  fault_at w 0 = Some ie →
  exec_loop t hs (S n) idx w =
    (Ret (Some (WithStack ie)),
     mkWorld u (tables w) (tail (faults w))
       ((trace w ++ [EvExec (GetIndex h)]) ++
        [EvDB (updateDirtyQuery t (GetIndex h) 1) (Some ie)])).
Proof.
  intros Hat He Hf. simpl. rewrite Hat. unfold call_Exec. rewrite He.
  by rewrite db_Exec_fault with (e := ie).
Qed.

Lemma after_ok_cons t h ok w :
  after_ok t (h :: ok) w = after_ok t ok (step_ok t h w).
Proof. reflexivity. Qed.

Lemma after_ok_udata t ok w : udata (after_ok t ok w) = run_all ok (udata w).
Proof.
  revert w. induction ok as [|h ok IH]; intros w; [done|].
  rewrite after_ok_cons, IH. done.
Qed.

Lemma after_ok_faults t ok w :
  faults (after_ok t ok w) = drop (length ok) (faults w).
Proof.
  revert w. induction ok as [|h ok IH]; intros w; [done|].
  rewrite after_ok_cons, IH. simpl.
  destruct (faults w); simpl; [by rewrite drop_nil|done].
Qed.

Lemma after_ok_executed t ok w :
  executed (after_ok t ok w) = executed w ++ (GetIndex <$> ok).
Proof.
  revert w. induction ok as [|h ok IH]; intros w.
  - simpl. by rewrite app_nil_r.
  - rewrite after_ok_cons, IH. unfold executed at 1, step_ok. simpl.
    rewrite !omap_app. simpl. rewrite app_nil_r, <- app_assoc. done.
Qed.

(** The log of a successful stretch: each handler followed by its
    progress write. *)
Lemma after_ok_activity t ok w :
  activity (after_ok t ok w) =
    activity w ++
    concat (map (λ h, [EvExec (GetIndex h);
                       EvDB (updateSchemaQuery t (GetIndex h)) None]) ok).
Proof.
  revert w. induction ok as [|h ok IH]; intros w.
  - simpl. by rewrite app_nil_r.
  - rewrite after_ok_cons, IH. unfold activity at 1, step_ok. simpl.
    rewrite !List.filter_app. simpl. rewrite <- !app_assoc. done.
Qed.

(** The schema table after a successful stretch: the version of every
    row is the index of the last handler, the dirty column is as before. *)
Lemma after_ok_table t ok w rows :
  tables w !! t = Some rows →
  tables (after_ok t ok w) !! t =
    Some (match last ok with
          | Some h => advance_rows (GetIndex h) rows
          | None => rows
          end).
Proof.
  revert w rows. induction ok as [|h ok IH]; intros w rows Ht; [done|].
  rewrite after_ok_cons.
  rewrite (IH _ (advance_rows (GetIndex h) rows)).
  - rewrite last_cons. destruct (last ok); [|done].
    by rewrite advance_rows_twice.
  - unfold step_ok. simpl. rewrite Ht. simpl. apply lookup_insert_eq.
Qed.

(** A stretch of handlers that all succeed, none of whose progress
    writes fails, is executed in order and the loop goes on after it. *)
Lemma exec_loop_oks t pre ok post n w rows :
  tables w !! t = Some rows → all_succeed ok (udata w) →
  (∀ i, (i < length ok)%nat → fault_at w i = None) →
  exec_loop t (pre ++ ok ++ post) (length ok + n) (len pre) w =
    exec_loop t (pre ++ ok ++ post) n (len pre + len ok) (after_ok t ok w).
Proof.
  revert pre w rows. induction ok as [|h ok IH]; intros pre w rows Ht Hok Hf.
  - simpl. unfold len at 2. simpl. by rewrite Z.add_0_r.
  - destruct Hok as [Hh Hok].
    change (length (h :: ok) + n)%nat with (S (length ok + n)).
    rewrite (exec_loop_step_ok t _ _ _ h w rows);
      [| apply handler_at_middle | done | apply Hf; simpl; lia | done].
    rewrite after_ok_cons.
    replace (pre ++ (h :: ok) ++ post) with ((pre ++ [h]) ++ ok ++ post)
      by (by rewrite <- app_assoc).
    replace (len pre + 1) with (len (pre ++ [h])) by (rewrite len_app; done).
    rewrite (IH (pre ++ [h]) (step_ok t h w) (advance_rows (GetIndex h) rows)).
    + f_equal. rewrite len_app, !len_cons. unfold len. simpl. lia.
    + unfold step_ok. simpl. rewrite Ht. apply lookup_insert_eq.
    + done.
    + intros i Hi. rewrite (fault_at_tail w) by done. apply Hf. simpl. lia.
Qed.

(** Whatever happens, the loop started at position [i] executes an
    initial stretch of the handlers from position [i] on, in slice
    order, each at most once. *)
Lemma exec_loop_executed t hs n (i : nat) w :
  ∃ k : nat,
    executed (exec_loop t hs n (Z.of_nat i) w).2 =
      executed w ++ (GetIndex <$> take k (drop i hs)).
Proof.
  revert i w. induction n as [|n IH]; intros i w.
  - exists 0%nat. simpl. by rewrite app_nil_r.
  - simpl. unfold handler_at.
    destruct (Z.ltb_spec (Z.of_nat i) 0); [lia|]. rewrite Nat2Z.id.
    destruct (hs !! i) as [h|] eqn:Hi.
    2:{ exists 0%nat. simpl. by rewrite app_nil_r. }
    assert (Hd : drop i hs = h :: drop (S i) hs) by (by apply drop_S).
    unfold call_Exec. destruct (Exec h (udata w)) as [u [e|]].
    + destruct (db_Exec _ _) as [[ie|] w2] eqn:Hdb;
        apply db_Exec_frame in Hdb as (_ & Hex & _); simpl;
        exists 1%nat; rewrite Hex, Hd; unfold executed; simpl;
        rewrite omap_app; done.
    + destruct (db_Exec _ _) as [[e2|] w2] eqn:Hdb;
        pose proof Hdb as Hdb'; apply db_Exec_frame in Hdb' as (_ & Hex & _).
      * exists 1%nat. simpl. rewrite Hex, Hd. unfold executed. simpl.
        rewrite omap_app. done.
      * replace (Z.of_nat i + 1) with (Z.of_nat (S i)) by lia.
        destruct (IH (S i) w2) as [k Hk]. exists (S k).
        rewrite Hk, Hex, Hd. unfold executed. simpl.
        rewrite omap_app. simpl. by rewrite <- app_assoc.
Qed.

End Loop.

(** ** Sorting and the index check *)

Lemma seqZ_sorted x n : StronglySorted Z.le (seqZ x n).
Proof.
  unfold seqZ. generalize (Z.to_nat n) as k. generalize 0%nat as a.
  intros a k. revert a. induction k as [|k IH]; intros a; simpl; constructor.
  - apply IH.
  - apply Forall_fmap, Forall_forall. intros j Hj.
    apply elem_of_seq in Hj. simpl. lia.
Qed.

Lemma NoDup_fmap_inj_on {A B} (f : A → B) (l : list A) x y :
  NoDup (f <$> l) → x ∈ l → y ∈ l → f x = f y → x = y.
Proof.
  induction l as [|a l IH]; intros Hnd Hx Hy Hf; [by inv Hx|].
  rewrite fmap_cons in Hnd. apply NoDup_cons in Hnd as [Hna Hnd].
  apply elem_of_cons in Hx as [->|Hx]; apply elem_of_cons in Hy as [->|Hy];
    [done| | |by apply IH].
  - exfalso. apply Hna. rewrite Hf. by apply list_elem_of_fmap_2.
  - exfalso. apply Hna. rewrite <- Hf. by apply list_elem_of_fmap_2.
Qed.

Section Sorting.
Context {U : Type} `{!@SortSlice U}.
Implicit Types (h : @Handler U) (hs l s : list (@Handler U)).

Lemma sorted_indices hs :
  StronglySorted index_le hs ↔ StronglySorted Z.le (GetIndex <$> hs).
Proof.
  induction hs as [|h hs IH]; [split; constructor|].
  rewrite fmap_cons. split; intros Hs; inv Hs; constructor;
    try (by apply IH).
  - by apply Forall_fmap.
  - by apply (Forall_fmap GetIndex (Z.le (GetIndex h))).
Qed.

(** A slice whose indices are pairwise different has one sorted
    arrangement, so every [sort.Slice] yields it. *)
Lemma sort_slice_eq l s :
  s ≡ₚ l → StronglySorted index_le s → NoDup (GetIndex <$> l) →
  sort_slice l = s.
Proof.
  intros Hp Hs Hnd.
  apply (StronglySorted_unique_strong index_le);
    [| apply sort_slice_sorted | done | by rewrite sort_slice_perm].
  intros x1 x2 H1 H2 Hle1 Hle2.
  apply (NoDup_fmap_inj_on GetIndex l); [done| | |unfold index_le in *; lia].
  - by rewrite <- (sort_slice_perm l).
  - by rewrite <- Hp.
Qed.


Lemma sort_slice_indices l x n :
  GetIndex <$> l ≡ₚ seqZ x n → GetIndex <$> sort_slice l = seqZ x n.
Proof.
  intros Hp. apply (StronglySorted_unique Z.le).
  - apply sorted_indices, sort_slice_sorted.
  - apply seqZ_sorted.
  - by rewrite sort_slice_perm.
Qed.

Lemma sort_slice_dense l x n :
  0 ≤ n → GetIndex <$> l ≡ₚ seqZ x n →
  dense_from x (sort_slice l) ∧ len (sort_slice l) = n.
Proof.
  intros Hn Hp. pose proof (sort_slice_indices l x n Hp) as Hi.
  assert (len (sort_slice l) = n) as Hl.
  { unfold len. rewrite <- (length_fmap GetIndex), Hi, length_seqZ. lia. }
  split; [|done]. unfold dense_from. by rewrite Hl.
Qed.

(** Consecutive indices pass the check, whatever the first one is. *)
Lemma check_index_dense_ok (x : Z) hs : dense_from x hs → check_index hs = None.
Proof.
  revert x. induction hs as [|a tl IH]; intros x Hd; [done|].
  apply dense_from_cons in Hd as [Ha Hd]. destruct tl as [|b tl]; [done|].
  rewrite check_index_cons2. pose proof Hd as Hd'.
  apply dense_from_cons in Hd' as [Hb _].
  replace (GetIndex b - GetIndex a) with 1 by lia.
  change (wrap 1 =? 1) with true. simpl. by apply (IH (x + 1)).
Qed.

(** ** [initHandlers] *)

Implicit Types (m : @migrate U) (es : list (@Executor U)).

Lemma collect_ok es hs :
  Forall lists_ok es →
  collect es hs =
    (map (λ e, (ListHandlers e).2) es, hs ++ concat (map listed es), None).
Proof.
  revert hs. induction es as [|e es IH]; intros hs Hok.
  - simpl. by rewrite app_nil_r.
  - inv Hok. simpl. unfold lists_ok, listed in *.
    destruct (ListHandlers e) as [[l err] e']. simpl in *. subst err.
    rewrite IH by done. by rewrite <- app_assoc.
Qed.

(** The first executor that fails ends the collection with its error:
    no later executor is asked. *)
Lemma collect_error es1 e es2 hs x :
  Forall lists_ok es1 → (ListHandlers e).1.2 = Some x →
  collect (es1 ++ e :: es2) hs =
    (map (λ e, (ListHandlers e).2) es1 ++ (ListHandlers e).2 :: es2,
     hs ++ concat (map listed es1), Some x).
Proof.
  revert hs. induction es1 as [|e1 es1 IH]; intros hs Hok He.
  - simpl. destruct (ListHandlers e) as [[l err] e']. simpl in *. subst err.
    by rewrite app_nil_r.
  - inv Hok. simpl. unfold lists_ok, listed in *.
    destruct (ListHandlers e1) as [[l1 err1] e1']. simpl in *. subst err1.
    rewrite IH by done. by rewrite <- app_assoc.
Qed.

Lemma initHandlers_schemaTable m : schemaTable (initHandlers m).1 = schemaTable m.
Proof.
  unfold initHandlers. destruct (collect _ _) as [[es hs] [e|]]; done.
Qed.

Lemma initHandlers_ok m :
  Forall lists_ok (executors m) →
  initHandlers m =
    (mkMigrate (schemaTable m) (map (λ e, (ListHandlers e).2) (executors m))
       (sort_slice (collected m)),
     check_index (sort_slice (collected m))).
Proof. intros Hok. unfold initHandlers. by rewrite collect_ok. Qed.

End Sorting.

(** ** The loading phase of [Run] *)

Section Loading.
Context {U : Type} `{!@SortSlice U}.
Implicit Types (m : @migrate U) (w : @World U) (t : string).

Lemma create_effect t (ts : gmap string (list Row)) :
  stmt_effect (createSchemaTableQuery t) ts =
    inr (match ts !! t with Some _ => ts | None => <[t := []]> ts end).
Proof. simpl. by destruct (ts !! t). Qed.

Lemma insertDefault_effect t (ts : gmap string (list Row)) rows :
  ts !! t = Some rows →
  stmt_effect (insertDefaultSchema t) ts = inr (<[t := rows ++ [mkRow 0 0]]> ts).
Proof. intros Ht. unfold stmt_effect. by rewrite Ht. Qed.

(** Loading runs no handler and leaves the application data alone. *)
Lemma initAndGetSchema_frame m w r w' :
  initAndGetSchema m w = (r, w') →
  udata w' = udata w ∧ executed w' = executed w.
Proof.
  unfold initAndGetSchema.
  destruct (db_Query _ _ w) as [[e|rows] w1] eqn:Hq;
    apply db_Query_frame in Hq as (Hu & Hx & _).
  { intros [= <- <-]. done. }
  destruct rows as [|row rest].
  - destruct (db_Exec _ w1) as [[e|] w2] eqn:Hi;
      apply db_Exec_frame in Hi as (Hu2 & Hx2 & _);
      intros [= <- <-]; split; congruence.
  - destruct (scan_bool (row_dirty row)) as [e|[|]]; simpl;
      intros [= <- <-]; done.
Qed.

(** Loading an existing row. *)
Lemma initAndGetSchema_row m w row rest :
  fault_at w 0 = None → tables w !! schemaTable m = Some (row :: rest) →
  initAndGetSchema m w =
    (match scan_bool (row_dirty row) with
     | inl e => inl (WithStack e)
     | inr true => inl (ErrFindIndexDirty (row_version row))
     | inr false => inr (mkSchema (row_version row) false)
     end,
     mkWorld (udata w) (tables w) (tail (faults w))
       (trace w ++ [EvDB (selectSchemaQuery (schemaTable m)) None])).
Proof.
  intros Hf Ht. unfold initAndGetSchema.
  rewrite (db_Query_ok _ _ _ _ Hf Ht).
  by destruct (scan_bool (row_dirty row)) as [e|[|]].
Qed.

(** Loading from an empty table inserts the default row. *)
Lemma initAndGetSchema_empty m w :
  fault_at w 0 = None → fault_at w 1 = None →
  tables w !! schemaTable m = Some [] →
  initAndGetSchema m w =
    (inr (mkSchema 0 false),
     mkWorld (udata w) (<[schemaTable m := [mkRow 0 0]]> (tables w))
       (tail (tail (faults w)))
       ((trace w ++ [EvDB (selectSchemaQuery (schemaTable m)) None]) ++
        [EvDB (insertDefaultSchema (schemaTable m)) None])).
Proof.
  intros Hf0 Hf1 Ht. unfold initAndGetSchema.
  rewrite (db_Query_ok _ _ _ _ Hf0 Ht).
  erewrite db_Exec_ok;
    [| by rewrite (fault_at_tail w) | simpl tables; by apply insertDefault_effect].
  done.
Qed.

(** [Run] once the handlers are accepted and the checkpoint is loaded. *)
Lemma Run_loaded m m1 w w1 w2 sche :
  initHandlers m = (m1, None) →
  db_Exec (createSchemaTableQuery (schemaTable m1)) w = (None, w1) →
  initAndGetSchema m1 w1 = (inr sche, w2) →
  version sche ≤ len (handlers m1) →
  Run m w =
    let r := exec_loop (schemaTable m1) (handlers m1)
               (Z.to_nat (len (handlers m1) - version sche)) (version sche) w2 in
    (r.1, m1, r.2).
Proof.
  intros Hi Hc Hl Hv. unfold Run. rewrite Hi, Hc, Hl.
  destruct (Z.gtb_spec (version sche) (len (handlers m1))); [lia|].
  by destruct (exec_loop _ _ _ _ _).
Qed.

(** With a clean row in place and the first two statements going
    through, the loop starts at the stored version. *)
Lemma Run_clean_row m m1 w row rest :
  initHandlers m = (m1, None) →
  tables w !! schemaTable m = Some (row :: rest) → row_dirty row = 0 →
  fault_at w 0 = None → fault_at w 1 = None →
  row_version row ≤ len (handlers m1) →
  Run m w =
    let r := exec_loop (schemaTable m) (handlers m1)
               (Z.to_nat (len (handlers m1) - row_version row))
               (row_version row) (loaded_row (schemaTable m) w) in
    (r.1, m1, r.2).
Proof.
  intros Hi Ht Hd Hf0 Hf1 Hv.
  assert (schemaTable m1 = schemaTable m) as Hst
    by (rewrite <- (initHandlers_schemaTable m); by rewrite Hi).
  pose (w1 := mkWorld (udata w) (tables w) (tail (faults w))
                (trace w ++ [EvDB (createSchemaTableQuery (schemaTable m1)) None])).
  assert (db_Exec (createSchemaTableQuery (schemaTable m1)) w = (None, w1)) as Hc1.
  { apply db_Exec_ok; [done|]. by rewrite create_effect, Hst, Ht. }
  assert (fault_at w1 0 = None) as Hf by (by rewrite (fault_at_tail w w1)).
  assert (tables w1 !! schemaTable m1 = Some (row :: rest)) as Ht1
    by (simpl; by rewrite Hst).
  pose proof (initAndGetSchema_row m1 w1 row rest Hf Ht1) as Hl.
  rewrite Hd in Hl. simpl in Hl.
  rewrite (Run_loaded _ _ _ _ _ _ Hi Hc1 Hl Hv). by rewrite Hst.
Qed.

(** With no progress recorded yet and a calm connection, the loop
    starts at position 0 over a table holding the row (0, 0). *)
Lemma Run_at_zero m m1 w :
  initHandlers m = (m1, None) → at_zero (schemaTable m) w → calm w →
  ∃ w0,
    Run m w =
      (let r := exec_loop (schemaTable m) (handlers m1)
                  (Z.to_nat (len (handlers m1))) 0 w0 in (r.1, m1, r.2)) ∧
    udata w0 = udata w ∧ tables w0 !! schemaTable m = Some [mkRow 0 0] ∧
    calm w0 ∧ executed w0 = executed w ∧ activity w0 = activity w.
Proof.
  intros Hi Hz Hc.
  assert (schemaTable m1 = schemaTable m) as Hst
    by (rewrite <- (initHandlers_schemaTable m); by rewrite Hi).
  assert (∀ k (w' : @World U), faults w' = drop k (faults w) → calm w') as Hcalm.
  { intros k w' E i. rewrite (fault_at_drop w w' k i E). apply Hc. }
  assert (0 ≤ len (handlers m1)) as Hlen by apply len_nonneg.
  assert (tables w !! schemaTable m = Some [mkRow 0 0] ∨
          ∃ ts, stmt_effect (createSchemaTableQuery (schemaTable m)) (tables w) = inr ts ∧
                ts !! schemaTable m = Some [] ∧
                <[schemaTable m := [mkRow 0 0]]> ts !! schemaTable m = Some [mkRow 0 0])
    as [Hrow|(ts & Hts & Hempty & Hins)].
  { destruct Hz as [Hz|[Hz|Hz]]; [right|right|by left].
    - eexists. rewrite create_effect, Hz. split; [done|].
      split; apply lookup_insert_eq.
    - eexists. rewrite create_effect, Hz. split; [done|].
      split; [done|apply lookup_insert_eq]. }
  - exists (loaded_row (schemaTable m) w). split.
    + rewrite (Run_clean_row m m1 w (mkRow 0 0) []); try done; try apply Hc.
      simpl. by rewrite Z.sub_0_r.
    + unfold loaded_row. simpl. repeat split.
      * done.
      * apply (Hcalm 2%nat). simpl. by destruct (faults w) as [|? [|? ?]].
      * unfold executed. simpl. rewrite !omap_app. simpl. by rewrite !app_nil_r.
      * unfold activity. simpl. rewrite !List.filter_app. simpl. by rewrite !app_nil_r.
  - pose (w1 := mkWorld (udata w) ts (tail (faults w))
                  (trace w ++ [EvDB (createSchemaTableQuery (schemaTable m1)) None])).
    assert (db_Exec (createSchemaTableQuery (schemaTable m1)) w = (None, w1)) as Hc1.
    { apply db_Exec_ok; [apply Hc|]. by rewrite Hst. }
    assert (fault_at w1 0 = None) as Hf0
      by (rewrite (fault_at_tail w w1) by done; apply Hc).
    assert (fault_at w1 1 = None) as Hf1
      by (rewrite (fault_at_tail w w1) by done; apply Hc).
    assert (tables w1 !! schemaTable m1 = Some []) as Ht1 by (simpl; by rewrite Hst).
    pose proof (initAndGetSchema_empty m1 w1 Hf0 Hf1 Ht1) as Hl.
    eexists. split.
    + rewrite (Run_loaded _ _ _ _ _ _ Hi Hc1 Hl Hlen). simpl.
      rewrite Hst, Z.sub_0_r. reflexivity.
    + simpl. repeat split.
      * done.
      * apply (Hcalm 3%nat). simpl. by destruct (faults w) as [|? [|? [|? ?]]].
      * unfold executed. simpl. rewrite !omap_app. simpl. by rewrite !app_nil_r.
      * unfold activity. simpl. rewrite !List.filter_app. simpl. by rewrite !app_nil_r.
Qed.

End Loading.

(** ** Whole runs *)

Lemma seqZ_segment x n (i k : nat) :
  ∃ k' : nat, take k (drop i (seqZ x n)) = seqZ (x + Z.of_nat i) (Z.of_nat k').
Proof.
  exists (k `min` (Z.to_nat n - i))%nat. unfold seqZ.
  rewrite <- fmap_drop, <- fmap_take, drop_seq, take_seq, Nat2Z.id.
  replace (0 + i)%nat with (i + 0)%nat by lia.
  rewrite <- (fmap_add_seq i 0), <- list_fmap_compose.
  apply list_fmap_ext. intros _ j _. simpl. lia.
Qed.


Section Runs.
Context {U : Type} `{!@SortSlice U}.
Implicit Types (m : @migrate U) (w : @World U) (h : @Handler U).

Lemma dense_from_last (x : Z) (hs : list (@Handler U)) h :
  dense_from x hs → last hs = Some h → GetIndex h = x + len hs - 1.
Proof.
  intros Hd Hl. apply last_Some in Hl as [l' ->].
  assert ((GetIndex <$> l' ++ [h]) !! length l' = Some (GetIndex h)) as Hlk.
  { rewrite fmap_app. change (GetIndex <$> [h]) with [GetIndex h].
    by rewrite list_lookup_middle by (by rewrite length_fmap). }
  unfold dense_from in Hd. rewrite Hd in Hlk. apply lookup_seqZ in Hlk as [-> _].
  rewrite len_app. unfold len. simpl. lia.
Qed.



(** The orchestrator a call of [Run] leaves is the one [initHandlers]
    leaves. *)
Lemma Run_migrate m w : (Run m w).1.2 = (initHandlers m).1.
Proof.
  unfold Run. destruct (initHandlers m) as [m1 [e|]]; [done|].
  destruct (db_Exec _ w) as [[e|] w1]; [done|].
  destruct (initAndGetSchema m1 w1) as [[e|sche] w2]; [done|].
  destruct (version sche >? len (handlers m1)); [done|].
  by destruct (exec_loop _ _ _ _ _).
Qed.

(** Whatever happens in a call of [Run], the handlers it executes are a
    stretch of consecutive positions of the sorted slice, in slice
    order. *)
Lemma Run_executed m w :
  ∃ i k : nat,
    executed (Run m w).2 =
      executed w ++ (GetIndex <$> take k (drop i (handlers (Run m w).1.2))).
Proof.
  assert (∀ (w' : @World U) (hs : list (@Handler U)), executed w' = executed w →
            executed w' = executed w ++ (GetIndex <$> take 0 (drop 0 hs)))
    as Hnone by (intros w' hs ->; simpl; by rewrite app_nil_r).
  unfold Run. destruct (initHandlers m) as [m1 [e|]].
  { exists 0%nat, 0%nat. by apply Hnone. }
  destruct (db_Exec _ w) as [[e|] w1] eqn:Hc;
    apply db_Exec_frame in Hc as (_ & Hx1 & _).
  { exists 0%nat, 0%nat. by apply Hnone. }
  destruct (initAndGetSchema m1 w1) as [[e|sche] w2] eqn:Hl;
    apply initAndGetSchema_frame in Hl as (_ & Hx2).
  { exists 0%nat, 0%nat. apply Hnone. simpl. congruence. }
  destruct (Z.gtb_spec (version sche) (len (handlers m1))) as [Hgt|Hle].
  { exists 0%nat, 0%nat. apply Hnone. simpl. congruence. }
  destruct (Z.ltb_spec (version sche) 0) as [Hneg|Hpos].
  - destruct (Z.to_nat (len (handlers m1) - version sche)) as [|n] eqn:Hn.
    { pose proof (len_nonneg (handlers m1)). lia. }
    simpl. rewrite handler_at_negative by done.
    exists 0%nat, 0%nat. apply Hnone. simpl. congruence.
  - destruct (exec_loop_executed (schemaTable m1) (handlers m1)
                (Z.to_nat (len (handlers m1) - version sche))
                (Z.to_nat (version sche)) w2) as [k Hk].
    rewrite Z2Nat.id in Hk by done.
    exists (Z.to_nat (version sche)), k.
    destruct (exec_loop _ _ _ _ _) as [o w3]. simpl in *.
    by rewrite Hk, Hx2, Hx1.
Qed.

(** A run over the indices 1..n from a checkpoint without progress, every
    handler succeeding and the connection calm: all handlers are executed
    in the order of their indices, each followed by its progress write,
    and the table ends with the row (n, 0). *)
Lemma Run_all_succeed m w n :
  Forall lists_ok (executors m) →
  GetIndex <$> collected m ≡ₚ seqZ 1 n → 0 ≤ n →
  at_zero (schemaTable m) w → calm w →
  all_succeed (sort_slice (collected m)) (udata w) →
  (Run m w).1.1 = Ret None ∧
  executed (Run m w).2 = executed w ++ seqZ 1 n ∧
  tables (Run m w).2 !! schemaTable m = Some [mkRow n 0] ∧
  udata (Run m w).2 = run_all (sort_slice (collected m)) (udata w) ∧
  activity (Run m w).2 =
    activity w ++
    concat (map (λ h, [EvExec (GetIndex h);
                       EvDB (updateSchemaQuery (schemaTable m) (GetIndex h)) None])
              (sort_slice (collected m))).
Proof.
  intros Hok Hp Hn Hz Hc Hall.
  destruct (sort_slice_dense (collected m) 1 n Hn Hp) as [Hd Hlen].
  pose proof (initHandlers_ok m Hok) as Hi.
  rewrite (check_index_dense_ok 1 _ Hd) in Hi.
  destruct (Run_at_zero m _ w Hi Hz Hc) as (w0 & -> & Hu0 & Ht0 & Hc0 & Hx0 & Ha0).
  cbn [fst snd handlers].
  set (s := sort_slice (collected m)) in *. set (t := schemaTable m) in *.
  replace (exec_loop t s (Z.to_nat (len s)) 0 w0)
    with (exec_loop t ([] ++ s ++ []) (length s + 0) (len ([] : list (@Handler U))) w0).
  2:{ rewrite app_nil_r, Nat.add_0_r. simpl. f_equal. unfold len. lia. }
  rewrite (exec_loop_oks t [] s [] 0 w0 [mkRow 0 0]);
    [| done | by rewrite Hu0 | intros i _; apply Hc0].
  cbn [exec_loop fst snd]. split; [done|].
  rewrite after_ok_executed, after_ok_udata, after_ok_activity,
    (after_ok_table t s w0 [mkRow 0 0]) by done.
  rewrite Hx0, Hu0, Ha0. unfold dense_from in Hd. rewrite Hlen in Hd.
  split; [by rewrite <- Hd|]. split; [|done].
  destruct (last s) as [h|] eqn:Hlast.
  - rewrite <- Hlen in Hd. pose proof (dense_from_last 1 s h Hd Hlast) as Hh.
    simpl. rewrite Hh, Hlen. do 3 f_equal. lia.
  - apply last_None in Hlast. rewrite Hlast in Hlen.
    unfold len in Hlen. simpl in Hlen. by rewrite <- Hlen.
Qed.

End Runs.

(** * The claims *)

Section Claim1.
Context {U : Type} `{!@SortSlice U}.
Implicit Types (m : @migrate U) (w : @World U) (h : @Handler U).

(** C1, as the code has it. Three handlers with the indices 1, 2 and 3,
    collected in any order from any executors, a checkpoint without
    progress and a calm connection; handler 1 succeeds and handler 2
    fails with [e]. [Run] executes handler 1, writes version 1, executes
    handler 2, writes version 2 with the dirty mark and stops: handler 3
    is not executed. The error returned is [e] itself, the handler's
    error as it is: [Run] adds no index to it. *)
Theorem C1_failure_at_two m w h1 h2 h3 u1 u2 e :
  Forall lists_ok (executors m) → collected m ≡ₚ [h1; h2; h3] →
  GetIndex h1 = 1 → GetIndex h2 = 2 → GetIndex h3 = 3 →
  at_zero (schemaTable m) w → calm w →
  Exec h1 (udata w) = (u1, None) → Exec h2 u1 = (u2, Some e) →
  (Run m w).1.1 = Ret (Some e) ∧
  activity (Run m w).2 =
    activity w ++
    [EvExec 1; EvDB (updateSchemaQuery (schemaTable m) 1) None;
     EvExec 2; EvDB (updateDirtyQuery (schemaTable m) 2 1) None] ∧
  executed (Run m w).2 = executed w ++ [1; 2] ∧
  tables (Run m w).2 !! schemaTable m = Some [mkRow 2 1] ∧
  udata (Run m w).2 = u2.
Proof.
  intros Hok Hp H1 H2 H3 Hz Hc He1 He2.
  set (t := schemaTable m) in *.
  assert (sort_slice (collected m) = [h1; h2; h3]) as Hs.
  { apply sort_slice_eq; [done| |].
    - apply sorted_indices. simpl. rewrite H1, H2, H3.
      apply (seqZ_sorted 1 3).
    - rewrite Hp. simpl. rewrite H1, H2, H3. apply (NoDup_seqZ 1 3). }
  pose proof (initHandlers_ok m Hok) as Hi. rewrite Hs in Hi.
  change (check_index [h1; h2; h3]) with
    (if wrap (GetIndex h2 - GetIndex h1) =? 1
     then if wrap (GetIndex h3 - GetIndex h2) =? 1 then None
          else if wrap (GetIndex h3 - GetIndex h2) =? 0
               then Some (ErrDuplicateIndex (GetIndex h2))
               else Some (ErrIndexGapLarge (GetIndex h2))
     else if wrap (GetIndex h2 - GetIndex h1) =? 0
          then Some (ErrDuplicateIndex (GetIndex h1))
          else Some (ErrIndexGapLarge (GetIndex h1))) in Hi.
  rewrite H1, H2, H3 in Hi. change (wrap (2 - 1) =? 1) with true in Hi.
  change (wrap (3 - 2) =? 1) with true in Hi. cbv iota in Hi.
  destruct (Run_at_zero m _ w Hi Hz Hc) as (w0 & -> & Hu0 & Ht0 & Hc0 & Hx0 & Ha0).
  cbn [fst snd handlers]. fold t.
  change (exec_loop t [h1; h2; h3] (Z.to_nat (len [h1; h2; h3])) 0 w0)
    with (exec_loop t ([] ++ [h1] ++ [h2; h3]) (length [h1] + 2)
            (len ([] : list (@Handler U))) w0).
  rewrite (exec_loop_oks t [] [h1] [h2; h3] 2 w0 [mkRow 0 0]);
    [| done | simpl; by rewrite Hu0, He1 | intros i _; apply Hc0].
  rewrite (exec_loop_fail_marked t _ _ _ h2 _ u2 e
             (advance_rows (GetIndex h1) [mkRow 0 0]));
    [| apply (handler_at_middle [h1] h2 [h3])
     | rewrite after_ok_udata; simpl; by rewrite Hu0, He1
     | rewrite (fault_at_drop w0 _ 1) by apply after_ok_faults; apply Hc0
     | by rewrite (after_ok_table t [h1] w0 [mkRow 0 0]) ].
  cbn [fst snd]. rewrite H1, H2. split; [done|]. split; [|split; [|split]].
  - unfold activity at 1. cbn [trace]. rewrite !List.filter_app.
    fold (activity (after_ok t [h1] w0)). rewrite after_ok_activity, Ha0.
    simpl. rewrite H1. by rewrite <- !app_assoc.
  - unfold executed at 1. cbn [trace]. rewrite !omap_app.
    fold (executed (after_ok t [h1] w0)). rewrite after_ok_executed, Hx0.
    simpl. rewrite H1. by rewrite <- !app_assoc.
  - cbn [tables]. by rewrite lookup_insert_eq.
  - done.
Qed.

End Claim1.

(** C1 on a sample, the three handlers coming from two executors in the
    order 3, 1, 2. *)
Lemma C1_failure_at_two_witness :
  (Run (sample.of_two [sample.ok 3] [sample.ok 1; sample.failing 2 "boom"])
     sample.fresh).1.1 = Ret (Some (Foreign "boom")).
Proof.
  refine (proj1
    (C1_failure_at_two
       (sample.of_two [sample.ok 3] [sample.ok 1; sample.failing 2 "boom"])
       sample.fresh
       (concrete.GoHandler_Handler (sample.ok 1))
       (concrete.GoHandler_Handler (sample.failing 2 "boom"))
       (concrete.GoHandler_Handler (sample.ok 3))
       [1] [1] (Foreign "boom") _ _ _ _ _ _ _ _ _)).
  - repeat constructor.
  - apply (Permutation_cons_append [_; _]).
  - reflexivity.
  - reflexivity.
  - reflexivity.
  - left. reflexivity.
  - apply calm_nil. reflexivity.
  - reflexivity.
  - reflexivity.
Defined.

(** C1 as stated does not hold: on the three handlers of the scenario,
    handler 2 failing with the error "boom", [Run] returns that very
    error, and its text does not name the index 2 (nor does any wrapper
    carry it). *)
Lemma C1_counterexample :
  let r := Run (sample.of_go [sample.ok 1; sample.failing 2 "boom"; sample.ok 3])
             sample.fresh in
  r.1.1 = Ret (Some (Foreign "boom")) ∧
  contains "2" (Error (Foreign "boom")) = false ∧
  executed r.2 = [1; 2].
Proof. vm_compute. repeat split. Qed.

(** Every element twice, in place. *)
Lemma twice_Permutation (l : list Z) : (l ≫= λ i, [i; i]) ≡ₚ l ++ l.
Proof.
  induction l as [|x l IH]; [done|].
  rewrite bind_cons. simpl. rewrite IH. f_equiv.
  by rewrite <- Permutation_middle.
Qed.

Lemma twice_sorted (l : list Z) :
  StronglySorted Z.le l → StronglySorted Z.le (l ≫= λ i, [i; i]).
Proof.
  induction 1 as [|x l Hs IH Hx]; [constructor|].
  rewrite bind_cons. simpl.
  assert (Forall (Z.le x) (l ≫= λ i, [i; i])) as Hall.
  { rewrite twice_Permutation. by apply Forall_app. }
  constructor; [constructor; [done|done]|]. constructor; [lia|done].
Qed.

Section Claim2.
Context {U : Type} `{!@SortSlice U}.
Implicit Types (m : @migrate U) (w : @World U).

(** The sorted slice of handlers that carry every index of 1..n twice
    starts with two handlers of index 1. *)
Lemma sort_slice_twice (l : list (@Handler U)) n :
  1 ≤ n → GetIndex <$> l ≡ₚ seqZ 1 n ++ seqZ 1 n →
  ∃ a b rest, sort_slice l = a :: b :: rest ∧ GetIndex a = 1 ∧ GetIndex b = 1.
Proof.
  intros Hn Hp.
  assert (GetIndex <$> sort_slice l = seqZ 1 n ≫= λ i, [i; i]) as Hs.
  { apply (StronglySorted_unique Z.le).
    - apply sorted_indices, sort_slice_sorted.
    - apply twice_sorted, seqZ_sorted.
    - by rewrite sort_slice_perm, twice_Permutation. }
  rewrite seqZ_cons, bind_cons in Hs by lia. simpl in Hs.
  destruct (sort_slice l) as [|a [|b rest]]; [done..|].
  rewrite !fmap_cons in Hs. injection Hs as Ha Hb _.
  by exists a, b, rest.
Qed.

(** C2, evaluated. An orchestrator whose handlers all come from its
    executors, with the indices 1..n for some n ≥ 1, on a checkpoint
    without progress; the executors list the same handlers whenever they
    are asked. The first [Run] succeeds and leaves the row (n, 0). The
    second [Run] on the same orchestrator asks the executors again and
    appends their handlers to the slice kept from the first run, which
    then holds every index twice: it returns [ErrDuplicateIndex 1] and
    does nothing else, instead of succeeding without work. *)
Theorem C2_second_run_reports_duplicate m w n :
  handlers m = [] →
  Forall lists_ok (executors m) → Forall stable (executors m) →
  GetIndex <$> collected m ≡ₚ seqZ 1 n → 1 ≤ n →
  at_zero (schemaTable m) w → calm w →
  all_succeed (sort_slice (collected m)) (udata w) →
  (Run m w).1.1 = Ret None ∧
  tables (Run m w).2 !! schemaTable m = Some [mkRow n 0] ∧
  (Run (Run m w).1.2 (Run m w).2).1.1 = Ret (Some (ErrDuplicateIndex 1)) ∧
  (Run (Run m w).1.2 (Run m w).2).2 = (Run m w).2.
Proof.
  intros Hnil Hok Hst Hp Hn Hz Hc Hall.
  destruct (Run_all_succeed m w n Hok Hp ltac:(lia) Hz Hc Hall) as (Hr & _ & Ht & _).
  split; [done|]. split; [done|].
  rewrite Run_migrate, (initHandlers_ok m Hok). cbn [fst].
  set (m2 := mkMigrate _ _ _).
  assert (Forall lists_ok (executors m2)) as Hok2.
  { simpl. apply Forall_fmap. eapply Forall_impl; [exact Hst|]. by intros e [? _]. }
  assert (concat (map listed (executors m2)) = collected m) as Hsame.
  { unfold collected. rewrite Hnil. simpl. clear -Hst.
    induction Hst as [|e es [_ He] _ IH]; [done|]. simpl. by rewrite He, IH. }
  assert (GetIndex <$> collected m2 ≡ₚ seqZ 1 n ++ seqZ 1 n) as Hp2.
  { unfold collected at 1. rewrite Hsame. cbn [handlers m2].
    by rewrite fmap_app, sort_slice_perm, Hp. }
  destruct (sort_slice_twice (collected m2) n Hn Hp2) as (a & b & rest & Hs & Ha & Hb).
  unfold Run at 1 3. rewrite (initHandlers_ok m2 Hok2), Hs, check_index_cons2.
  rewrite Ha, Hb. change (wrap (1 - 1) =? 1) with false.
  change (wrap (1 - 1) =? 0) with true. done.
Qed.

End Claim2.

(** C2 on a sample: one executor with the one handler of index 1, on a
    database without tables. *)
Lemma C2_second_run_reports_duplicate_witness :
  let r1 := Run (sample.of_go [sample.ok 1]) sample.fresh in
  r1.1.1 = Ret None ∧
  (Run r1.1.2 r1.2).1.1 = Ret (Some (ErrDuplicateIndex 1)).
Proof.
  pose proof
    (C2_second_run_reports_duplicate (sample.of_go [sample.ok 1]) sample.fresh 1)
    as Hc2.
  destruct Hc2 as (Hr1 & _ & Hr2 & _).
  - reflexivity.
  - repeat constructor.
  - repeat constructor.
  - apply Permutation_refl.
  - lia.
  - left. reflexivity.
  - apply calm_nil. reflexivity.
  - vm_compute. repeat split.
  - split; [exact Hr1|exact Hr2].
Defined.

Section Claim3.
Context {U : Type} `{!@SortSlice U}.

(** The orchestrator's side of discovery: the error of the first
    executor that fails is what [Run] returns, no later executor is
    asked, and nothing is executed or sent. *)
Lemma Run_discovery_error (m : @migrate U) (w : @World U) es1 e es2 x :
  executors m = es1 ++ e :: es2 →
  Forall lists_ok es1 → (ListHandlers e).1.2 = Some x →
  (Run m w).1.1 = Ret (Some x) ∧ (Run m w).2 = w.
Proof.
  intros Hes Hok He. unfold Run, initHandlers.
  by rewrite Hes, (collect_error es1 e es2 _ x Hok He).
Qed.

(** C3, evaluated. Whenever [getFilesByDir] fails (the directory cannot
    be read, it holds a subdirectory, or a [.sql] file has no numeric
    prefix), the SQL executor's [ListHandlers] returns an empty list and
    no error, and a [Run] over that executor alone goes on as if there
    were no handlers: from a checkpoint without progress it returns no
    error. The failure is swallowed by [initHandlers], which returns
    [nil] where it holds the error. *)
Theorem C3_listing_failure_is_swallowed
    (fs : concrete.FS) (db : @concrete.DB U) (dir : string) err (w : @World U) :
  concrete.getFilesByDir fs dir = inl err →
  at_zero defaultSchemaTableName w → calm w →
  concrete.sqlExecutor_ListHandlers fs (concrete.mkSqlExecutor dir db []) =
    (([], None), concrete.mkSqlExecutor dir db []) ∧
  (Run (New [WithExecutors
               [mkExecutor _ (concrete.mkSqlExecutor dir db [])
                  (concrete.sqlExecutor_ListHandlers fs)]]) w).1.1 = Ret None ∧
  executed (Run (New [WithExecutors
               [mkExecutor _ (concrete.mkSqlExecutor dir db [])
                  (concrete.sqlExecutor_ListHandlers fs)]]) w).2 = executed w.
Proof.
  intros Hg Hz Hc.
  assert (concrete.sqlExecutor_ListHandlers fs (concrete.mkSqlExecutor dir db []) =
          (([], None), concrete.mkSqlExecutor dir db [])) as Hl.
  { unfold concrete.sqlExecutor_ListHandlers, concrete.initHandlers. simpl.
    by rewrite Hg. }
  split; [done|].
  set (m := New _).
  destruct (Run_all_succeed m w 0) as (Hr & Hx & _).
  - repeat constructor. unfold lists_ok, ListHandlers. simpl. by rewrite Hl.
  - unfold collected, listed, ListHandlers. simpl. by rewrite Hl.
  - done.
  - done.
  - done.
  - replace (sort_slice (collected m)) with ([] : list (@Handler U)); [done|].
    symmetry. apply Permutation_nil_r. rewrite sort_slice_perm.
    unfold collected, listed, ListHandlers. simpl. by rewrite Hl.
  - split; [done|]. rewrite Hx. apply app_nil_r.
Qed.

End Claim3.

(** C3 on a sample: the default directory does not exist. *)
Lemma C3_listing_failure_is_swallowed_witness :
  (ListHandlers
     (concrete.NewSQLExecutor sample.unreadable sample.commits "")).1 = ([], None) ∧
  (Run (sample.of_sql sample.unreadable) sample.fresh).1.1 = Ret None.
Proof.
  pose proof
    (C3_listing_failure_is_swallowed sample.unreadable sample.commits
       concrete.defaultSourceDir
       (Foreign "open ./migration: no such file or directory") sample.fresh) as Hc3.
  destruct Hc3 as (Hl & Hr & _).
  - reflexivity.
  - left. reflexivity.
  - apply calm_nil. reflexivity.
  - split.
    + exact (f_equal fst Hl).
    + exact Hr.
Defined.

Section Claim4.
Context {U : Type} `{!@SortSlice U}.
Implicit Types (m : @migrate U).

(** C4, as the code has it. [initHandlers] accepts the collected handlers
    exactly when their indices are, in some order, [x, x+1, ..., x+n-1]
    for some first index [x]: the sequence must be dense, and nothing
    requires it to start at 1. *)
Theorem C4_accepts_dense_from_any_start m :
  Forall lists_ok (executors m) → Forall int_index (collected m) →
  (initHandlers m).2 = None ↔
  ∃ x, GetIndex <$> collected m ≡ₚ seqZ x (len (collected m)).
Proof.
  intros Hok Hint. rewrite (initHandlers_ok m Hok). simpl.
  assert (len (sort_slice (collected m)) = len (collected m)) as Hlen
    by (unfold len; by rewrite sort_slice_perm).
  split.
  - intros Hc. destruct (sort_slice (collected m)) as [|h tl] eqn:Hs.
    + exists 0. rewrite <- Hlen. simpl.
      rewrite <- (sort_slice_perm (collected m)), Hs. done.
    + exists (GetIndex h). apply check_index_dense in Hc.
      * rewrite <- Hlen, <- Hc, <- Hs. by rewrite sort_slice_perm.
      * rewrite <- Hs. by rewrite sort_slice_perm.
      * rewrite <- Hs. apply sort_slice_sorted.
  - intros [x Hp]. apply (check_index_dense_ok x).
    by apply (sort_slice_dense _ x (len (collected m))); [apply len_nonneg|].
Qed.

End Claim4.

(** C4 on a sample: the indices 7, 5, 6 are accepted. *)
Lemma C4_accepts_dense_from_any_start_witness :
  (initHandlers (sample.of_go [sample.ok 7; sample.ok 5; sample.ok 6])).2 = None.
Proof.
  refine (proj2
    (C4_accepts_dense_from_any_start
       (sample.of_go [sample.ok 7; sample.ok 5; sample.ok 6]) _ _) _).
  - repeat constructor.
  - repeat constructor; vm_compute; discriminate.
  - exists 5. simpl. apply (Permutation_cons_append [5; 6] 7).
Defined.

(** C4 as stated does not hold: the handlers with the indices 2 and 3 (the
    two Go handlers of the example program, without a first SQL file) are
    accepted although the first index is not 1. *)
Lemma C4_counterexample :
  let r := initHandlers (sample.of_go [sample.ok 2; sample.ok 3]) in
  r.2 = None ∧ GetIndex <$> handlers r.1 = [2; 3] ∧
  head (GetIndex <$> handlers r.1) ≠ Some 1.
Proof. vm_compute. repeat split. discriminate. Qed.

Section Claim5.
Context {U : Type} `{!@SortSlice U}.
Implicit Types (m : @migrate U) (w : @World U).

(** C5. The handlers are collected and sorted; [pre ++ [a]] is the part of
    the sorted slice over which the walk finds gaps of 1, and [b] follows
    [a]. If [b] has the index of [a], [Run] returns [ErrDuplicateIndex]
    with that index; if the index of [b] is more than 1 above,
    [Run] returns [ErrIndexGapLarge] with the index of [a]. Either way
    [Run] returns with the world as it was: no handler was executed and
    no statement was sent. *)
Theorem C5_duplicate_and_gap m w (pre post : list (@Handler U)) a b :
  Forall lists_ok (executors m) → Forall int_index (collected m) →
  sort_slice (collected m) = pre ++ a :: b :: post →
  (∃ x, dense_from x (pre ++ [a])) →
  (GetIndex b = GetIndex a →
     (Run m w).1.1 = Ret (Some (ErrDuplicateIndex (GetIndex a))) ∧
     (Run m w).2 = w) ∧
  (GetIndex a + 1 < GetIndex b →
     (Run m w).1.1 = Ret (Some (ErrIndexGapLarge (GetIndex a))) ∧
     (Run m w).2 = w).
Proof.
  intros Hok Hint Hs [x Hd].
  pose proof (sort_slice_sorted (collected m)) as Hsorted.
  assert (Forall int_index (sort_slice (collected m))) as Hint'
    by (by rewrite sort_slice_perm).
  rewrite Hs in Hsorted, Hint'.
  assert (check_index (sort_slice (collected m)) = check_index (a :: b :: post))
    as Hskip.
  { rewrite Hs. apply (check_index_skip pre a (b :: post) x); [| |done].
    - replace (pre ++ a :: b :: post) with ((pre ++ [a]) ++ b :: post) in Hint'
        by (by rewrite <- app_assoc).
      by apply Forall_app in Hint' as [? _].
    - replace (pre ++ a :: b :: post) with ((pre ++ [a]) ++ b :: post) in Hsorted
        by (by rewrite <- app_assoc).
      by apply StronglySorted_app_1_l in Hsorted. }
  apply Forall_app in Hint' as [_ Hab].
  apply Forall_cons in Hab as [Ha Hab]. apply Forall_cons in Hab as [Hb _].
  apply StronglySorted_app_1_r in Hsorted.
  inversion Hsorted as [|?? _ Hle]; subst. apply Forall_cons in Hle as [Hle _].
  destruct (check_index_pair a b post Ha Hb Hle) as [Hdup Hgap].
  unfold Run. rewrite (initHandlers_ok m Hok), Hskip.
  split; intros Hg.
  - by rewrite (Hdup Hg).
  - by rewrite (Hgap Hg).
Qed.

End Claim5.

(** C5 on samples: two executors that both claim index 3, and the
    indices 1, 2, 4. *)
Lemma C5_duplicate_and_gap_witness :
  (Run (sample.of_two [sample.ok 1; sample.ok 3] [sample.ok 3; sample.ok 2])
     sample.fresh).1.1 = Ret (Some (ErrDuplicateIndex 3)) ∧
  (Run (sample.of_go [sample.ok 4; sample.ok 1; sample.ok 2])
     sample.fresh).1.1 = Ret (Some (ErrIndexGapLarge 2)).
Proof.
  split.
  - refine (proj1 (proj1
      (C5_duplicate_and_gap
         (sample.of_two [sample.ok 1; sample.ok 3] [sample.ok 3; sample.ok 2])
         sample.fresh
         [concrete.GoHandler_Handler (sample.ok 1);
          concrete.GoHandler_Handler (sample.ok 2)]
         []
         (concrete.GoHandler_Handler (sample.ok 3))
         (concrete.GoHandler_Handler (sample.ok 3)) _ _ _ _) _)).
    + repeat constructor.
    + repeat constructor; vm_compute; discriminate.
    + reflexivity.
    + exists 1. reflexivity.
    + reflexivity.
  - refine (proj1 (proj2
      (C5_duplicate_and_gap
         (sample.of_go [sample.ok 4; sample.ok 1; sample.ok 2])
         sample.fresh
         [concrete.GoHandler_Handler (sample.ok 1)]
         []
         (concrete.GoHandler_Handler (sample.ok 2))
         (concrete.GoHandler_Handler (sample.ok 4)) _ _ _ _) _)).
    + repeat constructor.
    + repeat constructor; vm_compute; discriminate.
    + reflexivity.
    + exists 1. reflexivity.
    + simpl. lia.
Defined.

Section Claim6.
Context {U : Type} `{!@SortSlice U}.
Implicit Types (m : @migrate U) (w : @World U) (h : @Handler U).

(** C6. When the row of the schema table is dirty at the start of [Run],
    [Run] changes no table, executes no handler, leaves the application
    data alone and returns an error in every case; when the handlers are
    accepted and the two statements up to the read go through, the error
    is [ErrFindIndexDirty] with the stored version. Since nothing [Run]
    does changes the row, no call of [Run] clears the flag. *)
Theorem C6_dirty_checkpoint_blocks m w row rest :
  tables w !! schemaTable m = Some (row :: rest) → row_dirty row = 1 →
  tables (Run m w).2 = tables w ∧
  udata (Run m w).2 = udata w ∧
  executed (Run m w).2 = executed w ∧
  (∃ e, (Run m w).1.1 = Ret (Some e)) ∧
  ((initHandlers m).2 = None → fault_at w 0 = None → fault_at w 1 = None →
   (Run m w).1.1 = Ret (Some (ErrFindIndexDirty (row_version row)))).
Proof.
  intros Ht Hd. unfold Run.
  pose proof (initHandlers_schemaTable m) as Hst.
  destruct (initHandlers m) as [m1 [e|]]; simpl in Hst.
  { simpl. repeat split; eauto. discriminate. }
  destruct (db_Exec _ w) as [[e|] w1] eqn:Hc.
  { pose proof (db_Exec_frame _ _ _ _ Hc) as (Hu & Hx & _ & _).
    revert Hc. unfold db_Exec. rewrite next_fault_eq.
    destruct (fault_at w 0) as [f|].
    - intros [= <- <-]. simpl. repeat split; eauto. intros _ [=].
    - rewrite create_effect, Hst, Ht. discriminate. }
  pose proof Hc as Hc'. apply db_Exec_frame in Hc' as (Hu & Hx & Hfa & _).
  assert (tables w1 = tables w ∧ fault_at w 0 = None) as [Hts Hf0].
  { revert Hc. unfold db_Exec. rewrite next_fault_eq.
    destruct (fault_at w 0) as [f|]; [discriminate|].
    rewrite create_effect, Hst, Ht. intros [= <-]. done. }
  assert (∀ u ts fs q r,
            executed (mkWorld (U:=U) u ts fs (trace w1 ++ [EvDB q r])) = executed w)
    as Hex.
  { intros. unfold executed in *. simpl. rewrite omap_app. simpl.
    by rewrite app_nil_r. }
  unfold initAndGetSchema. unfold db_Query. rewrite next_fault_eq.
  rewrite (fault_at_tail w w1 0 Hfa), Hts, Hst, Ht.
  destruct (fault_at w 1) as [f|]; simpl.
  { split; [done|]. split; [done|]. split; [apply Hex|].
    split; [eauto|]. intros _ _ [=]. }
  rewrite Hd. simpl.
  split; [done|]. split; [done|]. split; [apply Hex|]. split; eauto.
Qed.

End Claim6.

(** C6 on a sample: three handlers, a row left dirty at version 2. *)
Lemma C6_dirty_checkpoint_blocks_witness :
  (Run (sample.of_go [sample.ok 1; sample.ok 2; sample.ok 3])
     (sample.with_row 2 1)).1.1 = Ret (Some (ErrFindIndexDirty 2)).
Proof.
  refine (proj2 (proj2 (proj2 (proj2
    (C6_dirty_checkpoint_blocks
       (sample.of_go [sample.ok 1; sample.ok 2; sample.ok 3])
       (sample.with_row 2 1) (mkRow 2 1) [] _ _)))) _ _ _);
    reflexivity.
Defined.

Section Claim7.
Context {U : Type} `{!@SortSlice U}.
Implicit Types (m : @migrate U) (w : @World U) (h : @Handler U).

(** C7. When the version of the loaded checkpoint is strictly greater
    than the number of collected handlers, [Run] returns
    [ErrIndexLessDatabaseVersion] (the stale-checkpoint error); no handler
    is executed and the application data is untouched. The premises say
    that [Run] got as far as a loaded checkpoint: the handlers were
    accepted, the table statement went through, the row was read. *)
Theorem C7_stale_checkpoint m m1 w w1 w2 sche :
  initHandlers m = (m1, None) →
  db_Exec (createSchemaTableQuery (schemaTable m1)) w = (None, w1) →
  initAndGetSchema m1 w1 = (inr sche, w2) →
  len (handlers m1) < version sche →
  Run m w = (Ret (Some ErrIndexLessDatabaseVersion), m1, w2) ∧
  executed w2 = executed w ∧ udata w2 = udata w.
Proof.
  intros Hi Hc Hl Hv. split.
  - unfold Run. rewrite Hi, Hc, Hl.
    destruct (Z.gtb_spec (version sche) (len (handlers m1))); [done|lia].
  - apply db_Exec_frame in Hc as (Hu1 & Hx1 & _).
    apply initAndGetSchema_frame in Hl as (Hu2 & Hx2). split; congruence.
Qed.

End Claim7.

(** C7 on a sample: one handler, a stored version of 5. *)
Lemma C7_stale_checkpoint_witness :
  (Run (sample.of_go [sample.ok 1]) (sample.with_row 5 0)).1.1 =
    Ret (Some ErrIndexLessDatabaseVersion).
Proof.
  refine (f_equal (λ r, r.1.1)
    (proj1 (C7_stale_checkpoint (sample.of_go [sample.ok 1]) _
              (sample.with_row 5 0) _ _ (mkSchema 5 false) _ _ _ _))).
  - reflexivity.
  - reflexivity.
  - reflexivity.
  - vm_compute. reflexivity.
Defined.

Section Claim8.
Context {U : Type} `{!@SortSlice U}.
Implicit Types (m : @migrate U) (w : @World U).


End Claim8.


Section Claim9.
Context {U : Type} `{!@SortSlice U}.
Implicit Types (m : @migrate U) (w : @World U) (h : @Handler U).

Lemma fault_at_loaded_row t w i :
  fault_at (loaded_row t w) i = fault_at w (2 + i).
Proof.
  apply fault_at_drop. unfold loaded_row. simpl.
  by destruct (faults w) as [|? [|? ?]].
Qed.

(** C9. A handler fails and the write of the dirty mark fails too: [Run]
    returns the error of that write (wrapped by [WithStack]), not the
    handler's error. The handlers before the stored version are
    [applied]; the handlers of [ok] run and succeed, their progress writes
    go through; [h] fails with [e]; the next statement, the dirty mark,
    fails with [ie]. The dirty column of the table is then as it was. *)
Theorem C9_dirty_write_failure
    m m1 w row rest (applied ok later : list (@Handler U)) h u e ie :
  initHandlers m = (m1, None) →
  handlers m1 = applied ++ ok ++ h :: later →
  tables w !! schemaTable m = Some (row :: rest) →
  row_dirty row = 0 → row_version row = len applied →
  all_succeed ok (udata w) →
  Exec h (run_all ok (udata w)) = (u, Some e) →
  (∀ i, (i < 2 + length ok)%nat → fault_at w i = None) →
  fault_at w (2 + length ok) = Some ie →
  (Run m w).1.1 = Ret (Some (WithStack ie)) ∧
  executed (Run m w).2 = executed w ++ (GetIndex <$> ok) ++ [GetIndex h] ∧
  udata (Run m w).2 = u ∧
  ∃ rows, tables (Run m w).2 !! schemaTable m = Some rows ∧
          row_dirty <$> rows = row_dirty <$> (row :: rest).
Proof.
  intros Hi Hhs Ht Hd Hv Hok He Hf Hfail.
  set (t := schemaTable m) in *.
  rewrite (Run_clean_row m m1 w row rest Hi Ht Hd);
    [| apply Hf; lia | apply Hf; lia
     | rewrite Hv, Hhs, len_app; pose proof (len_nonneg (ok ++ h :: later)); lia ].
  rewrite Hv, Hhs. fold t.
  replace (Z.to_nat (len (applied ++ ok ++ h :: later) - len applied))
    with (length ok + S (length later))%nat
    by (rewrite !len_app, len_cons; unfold len; lia).
  rewrite (exec_loop_oks t applied ok (h :: later) _ (loaded_row t w) (row :: rest));
    [| done | done | intros i Hi'; rewrite fault_at_loaded_row; apply Hf; lia].
  replace (applied ++ ok ++ h :: later) with ((applied ++ ok) ++ h :: later)
    by (by rewrite <- app_assoc).
  rewrite <- len_app.
  rewrite (exec_loop_fail_unmarked t _ _ _ h _ u e ie).
  - simpl. split; [done|]. split; [|split; [done|]].
    + unfold executed at 1. simpl. rewrite !omap_app. simpl. rewrite app_nil_r.
      fold (executed (after_ok t ok (loaded_row t w))).
      rewrite after_ok_executed. unfold executed at 1, loaded_row. simpl.
      rewrite !omap_app. simpl. rewrite !app_nil_r.
      fold (executed w). by rewrite <- app_assoc.
    + rewrite (after_ok_table t ok _ (row :: rest)) by done.
      eexists. split; [done|].
      destruct (last ok); [|done]. apply advance_rows_dirty.
  - apply handler_at_middle.
  - by rewrite after_ok_udata.
  - rewrite (fault_at_drop (loaded_row t w) _ (length ok))
      by apply after_ok_faults.
    rewrite fault_at_loaded_row. by rewrite Nat.add_0_r.
Qed.

End Claim9.

(** C9 on a sample: the checkpoint is at 1, handler 2 succeeds, handler 3
    fails, and the fourth statement of the run, the dirty mark, fails. *)
Lemma C9_dirty_write_failure_witness :
  (Run (sample.of_go [sample.ok 1; sample.ok 2; sample.failing 3 "boom"])
     (sample.with_faults [None; None; None; Some (Foreign "connection lost")]
        (sample.with_row 1 0))).1.1 =
    Ret (Some (WithStack (Foreign "connection lost"))).
Proof.
  refine (proj1
    (C9_dirty_write_failure
       (sample.of_go [sample.ok 1; sample.ok 2; sample.failing 3 "boom"]) _
       (sample.with_faults [None; None; None; Some (Foreign "connection lost")]
          (sample.with_row 1 0))
       (mkRow 1 0) []
       [concrete.GoHandler_Handler (sample.ok 1)]
       [concrete.GoHandler_Handler (sample.ok 2)] []
       (concrete.GoHandler_Handler (sample.failing 3 "boom"))
       [2] (Foreign "boom") (Foreign "connection lost")
       _ _ _ _ _ _ _ _ _)).
  - reflexivity.
  - reflexivity.
  - reflexivity.
  - reflexivity.
  - reflexivity.
  - simpl. split; reflexivity.
  - reflexivity.
  - intros [|[|[|i]]] Hi; try reflexivity. simpl in Hi. lia.
  - reflexivity.
Defined.

Section Claim10.
Context {U : Type} `{!@SortSlice U}.
Implicit Types (m : @migrate U) (w : @World U).

(** C10. The progress write [updateSchemaQuery] sets the version of the
    rows to the index it is given and leaves their dirty column as it is.
    A run over the indices 1..n that starts without progress (table
    absent, empty, or at the row (0, 0)), with every handler succeeding
    and a calm connection, returns no error, sends one progress write
    after each handler and no other write, and leaves the row (n, 0):
    version n, not dirty. For n = 0 that is the row (0, 0). *)
Theorem C10_advance_keeps_dirty m w n :
  Forall lists_ok (executors m) →
  GetIndex <$> collected m ≡ₚ seqZ 1 n → 0 ≤ n →
  at_zero (schemaTable m) w → calm w →
  all_succeed (sort_slice (collected m)) (udata w) →
  (∀ (w0 : @World U) v rows,
     fault_at w0 0 = None → tables w0 !! schemaTable m = Some rows →
     (db_Exec (updateSchemaQuery (schemaTable m) v) w0).1 = None ∧
     ∃ rows',
       tables (db_Exec (updateSchemaQuery (schemaTable m) v) w0).2
         !! schemaTable m = Some rows' ∧
       row_dirty <$> rows' = row_dirty <$> rows ∧
       Forall (λ r, row_version r = v) rows') ∧
  (Run m w).1.1 = Ret None ∧
  tables (Run m w).2 !! schemaTable m = Some [mkRow n 0] ∧
  activity (Run m w).2 =
    activity w ++
    concat (map (λ h, [EvExec (GetIndex h);
                       EvDB (updateSchemaQuery (schemaTable m) (GetIndex h)) None])
              (sort_slice (collected m))).
Proof.
  intros Hok Hp Hn Hz Hc Hall. split.
  - intros w0 v rows Hf Ht.
    rewrite (db_Exec_ok _ w0 _ Hf (updateSchema_effect _ v _ rows Ht)).
    simpl. split; [done|]. exists (advance_rows v rows).
    split; [apply lookup_insert_eq|]. split.
    + apply advance_rows_dirty.
    + apply advance_rows_version.
  - destruct (Run_all_succeed m w n Hok Hp Hn Hz Hc Hall)
      as (Hr & _ & Ht & _ & Ha). done.
Qed.

End Claim10.

(** C10 on a sample: a first run of three handlers that succeed. *)
Lemma C10_advance_keeps_dirty_witness :
  tables (Run (sample.of_go [sample.ok 2; sample.ok 1; sample.ok 3])
            sample.fresh).2 !! defaultSchemaTableName = Some [mkRow 3 0].
Proof.
  refine (proj1 (proj2 (proj2
    (C10_advance_keeps_dirty
       (sample.of_go [sample.ok 2; sample.ok 1; sample.ok 3])
       sample.fresh 3 _ _ _ _ _ _)))).
  - repeat constructor.
  - apply perm_swap.
  - lia.
  - left. reflexivity.
  - apply calm_nil. reflexivity.
  - vm_compute. repeat split.
Defined.

(** * Further properties of the orchestrator *)

Section MoreLoop.
Context {U : Type}.
Implicit Types (h : @Handler U) (hs : list (@Handler U)).
Implicit Types (w : @World U) (t : string).

Lemma drop_drop_tail {A} (k : nat) (l : list A) : drop k (tail l) = drop (S k) l.
Proof. destruct l; simpl; [by rewrite drop_nil|done]. Qed.

(** The loop only consumes scheduled failures. *)
Lemma exec_loop_faults t hs n idx w :
  ∃ k : nat, faults (exec_loop t hs n idx w).2 = drop k (faults w).
Proof.
  revert idx w. induction n as [|n IH]; intros idx w; [by exists 0%nat|].
  simpl. destruct (handler_at hs idx) as [h|]; [|by exists 0%nat].
  unfold call_Exec. destruct (Exec h (udata w)) as [u [e|]].
  - destruct (db_Exec _ _) as [[ie|] w2] eqn:Hdb;
      apply db_Exec_frame in Hdb as (_ & _ & Hf & _); exists 1%nat; simpl; by rewrite Hf.
  - destruct (db_Exec _ _) as [[e2|] w2] eqn:Hdb;
      apply db_Exec_frame in Hdb as (_ & _ & Hf & _).
    + exists 1%nat. simpl. by rewrite Hf.
    + destruct (IH (idx + 1) w2) as [k Hk]. exists (S k).
      rewrite Hk, Hf. simpl. apply drop_drop_tail.
Qed.






End MoreLoop.

Section MoreRuns.
Context {U : Type} `{!@SortSlice U}.
Implicit Types (m : @migrate U) (w : @World U) (h : @Handler U).

Lemma initAndGetSchema_faults m w :
  ∃ k : nat, faults (initAndGetSchema m w).2 = drop k (faults w).
Proof.
  unfold initAndGetSchema.
  destruct (db_Query _ _ w) as [[e|rows] w1] eqn:Hq;
    apply db_Query_frame in Hq as (_ & _ & _ & Hf & _).
  { exists 1%nat. simpl. by rewrite Hf. }
  destruct rows as [|row rest].
  - destruct (db_Exec _ w1) as [[e|] w2] eqn:Hi;
      apply db_Exec_frame in Hi as (_ & _ & Hf2 & _);
      exists 2%nat; simpl; rewrite Hf2, Hf; by destruct (faults w) as [|? [|? ?]].
  - exists 1%nat. destruct (scan_bool (row_dirty row)) as [e|[|]]; simpl;
      by rewrite Hf.
Qed.

(** [Run] only consumes scheduled failures: a calm connection stays
    calm. *)
Lemma Run_faults m w : ∃ k : nat, faults (Run m w).2 = drop k (faults w).
Proof.
  unfold Run. destruct (initHandlers m) as [m1 [e|]]; [by exists 0%nat|].
  destruct (db_Exec _ w) as [[e|] w1] eqn:Hc;
    apply db_Exec_frame in Hc as (_ & _ & Hf1 & _).
  { exists 1%nat. simpl. by rewrite Hf1. }
  destruct (initAndGetSchema_faults m1 w1) as [k2 Hf2].
  destruct (initAndGetSchema m1 w1) as [[e|sche] w2]; simpl in Hf2.
  { exists (S k2). simpl. rewrite Hf2, Hf1. apply drop_drop_tail. }
  destruct (version sche >? len (handlers m1)).
  { exists (S k2). simpl. rewrite Hf2, Hf1. apply drop_drop_tail. }
  destruct (exec_loop_faults (schemaTable m1) (handlers m1)
              (Z.to_nat (len (handlers m1) - version sche)) (version sche) w2)
    as [k3 Hf3].
  destruct (exec_loop _ _ _ _ _) as [o w3]. simpl in *.
  exists (S (k2 + k3)). rewrite Hf3, Hf2, Hf1, drop_drop, drop_drop_tail.
  f_equal.
Qed.

Lemma Run_calm m w : calm w → calm (Run m w).2.
Proof.
  intros Hc i. destruct (Run_faults m w) as [k Hk].
  rewrite (fault_at_drop w _ k i Hk). apply Hc.
Qed.

(** Resuming. With a clean row in place, [Run] starts at the position
    the stored version gives: the handlers from that position on are
    executed in slice order, each followed by its progress write. *)
Lemma Run_resume m m1 w row rest :
  initHandlers m = (m1, None) →
  tables w !! schemaTable m = Some (row :: rest) → row_dirty row = 0 →
  0 ≤ row_version row ≤ len (handlers m1) → calm w →
  all_succeed (drop (Z.to_nat (row_version row)) (handlers m1)) (udata w) →
  Run m w =
    (Ret None, m1,
     after_ok (schemaTable m) (drop (Z.to_nat (row_version row)) (handlers m1))
       (loaded_row (schemaTable m) w)).
Proof.
  intros Hi Ht Hd Hv Hc Hall.
  rewrite (Run_clean_row m m1 w row rest Hi Ht Hd (Hc 0%nat) (Hc 1%nat))
    by lia.
  set (t := schemaTable m). set (hs := handlers m1) in *.
  set (v := Z.to_nat (row_version row)) in *.
  assert (v ≤ length hs)%nat as Hvl by (unfold v, len in *; lia).
  assert (len (take v hs) = row_version row) as Hlt.
  { unfold len. rewrite length_take. unfold v, len in *. lia. }
  replace (exec_loop t hs (Z.to_nat (len hs - row_version row)) (row_version row)
             (loaded_row t w))
    with (exec_loop t (take v hs ++ drop v hs ++ []) (length (drop v hs) + 0)
            (len (take v hs)) (loaded_row t w)).
  2:{ rewrite app_nil_r, take_drop, Nat.add_0_r, Hlt, length_drop.
      f_equal. unfold v, len in *. lia. }
  rewrite (exec_loop_oks t (take v hs) (drop v hs) [] 0 (loaded_row t w) (row :: rest));
    [done | done | done |].
  intros i _. rewrite fault_at_loaded_row. apply Hc.
Qed.

(** With a dirty row in place and the two statements up to the read
    going through, [Run] stops at the read. *)
Lemma Run_dirty_row m m1 w row rest :
  initHandlers m = (m1, None) →
  tables w !! schemaTable m = Some (row :: rest) → row_dirty row = 1 →
  fault_at w 0 = None → fault_at w 1 = None →
  Run m w =
    (Ret (Some (ErrFindIndexDirty (row_version row))), m1,
     loaded_row (schemaTable m) w).
Proof.
  intros Hi Ht Hd Hf0 Hf1.
  assert (schemaTable m1 = schemaTable m) as Hst
    by (rewrite <- (initHandlers_schemaTable m); by rewrite Hi).
  pose (w1 := mkWorld (udata w) (tables w) (tail (faults w))
                (trace w ++ [EvDB (createSchemaTableQuery (schemaTable m1)) None])).
  assert (db_Exec (createSchemaTableQuery (schemaTable m1)) w = (None, w1)) as Hc1.
  { apply db_Exec_ok; [done|]. by rewrite create_effect, Hst, Ht. }
  assert (fault_at w1 0 = None) as Hf by (by rewrite (fault_at_tail w w1)).
  assert (tables w1 !! schemaTable m1 = Some (row :: rest)) as Ht1
    by (simpl; by rewrite Hst).
  pose proof (initAndGetSchema_row m1 w1 row rest Hf Ht1) as Hl.
  rewrite Hd in Hl. simpl in Hl.
  unfold Run. rewrite Hi, Hc1, Hl. unfold loaded_row, w1. by rewrite Hst.
Qed.

End MoreRuns.

Section OrchestratorExtras.
Context {U : Type} `{!@SortSlice U}.
Implicit Types (m : @migrate U) (w : @World U) (h : @Handler U).

Lemma collect_None_lists_ok (es : list (@Executor U)) hs :
  (collect es hs).2 = None → Forall lists_ok es.
Proof.
  revert hs. induction es as [|e es IH]; intros hs Hc; [constructor|].
  simpl in Hc. unfold lists_ok.
  destruct (ListHandlers e) as [[l [x|]] e'] eqn:He; [done|].
  destruct (collect es (hs ++ l)) as [[es'' hs'] r] eqn:Hc'. simpl in Hc. subst r.
  constructor; [by rewrite He|]. apply (IH (hs ++ l)). by rewrite Hc'.
Qed.


(** X1. Discovery stops at the first executor that fails: [Run] returns
    that executor's error as it is, nothing is executed and no
    statement is sent; the handlers listed before the failure stay
    appended to the orchestrator's slice, unsorted, and the executors
    after the failing one are not asked. *)
Theorem Run_stops_at_first_failing_executor m w es1 e es2 x :
  executors m = es1 ++ e :: es2 →
  Forall lists_ok es1 → (ListHandlers e).1.2 = Some x →
  (Run m w).1.1 = Ret (Some x) ∧ (Run m w).2 = w ∧
  handlers (Run m w).1.2 = handlers m ++ concat (map listed es1) ∧
  drop (S (length es1)) (executors (Run m w).1.2) = es2.
Proof.
  intros Hes Hok He. unfold Run, initHandlers.
  rewrite Hes, (collect_error es1 e es2 _ x Hok He). simpl.
  repeat split.
  replace (map (λ e0, (ListHandlers e0).2) es1 ++ (ListHandlers e).2 :: es2)
    with ((map (λ e0, (ListHandlers e0).2) es1 ++ [(ListHandlers e).2]) ++ es2)
    by (by rewrite <- app_assoc).
  apply drop_app_length'. rewrite length_app, length_map. simpl. lia.
Qed.

(** X2. Whatever the outcome of [Run], the orchestrator afterwards holds
    every handler it held before together with every handler the
    executors listed, sorted by index: nothing is dropped and the slice
    is not reset. *)
Theorem Run_keeps_everything_collected m w :
  Forall lists_ok (executors m) →
  handlers (Run m w).1.2 ≡ₚ handlers m ++ concat (map listed (executors m)) ∧
  StronglySorted index_le (handlers (Run m w).1.2) ∧
  schemaTable (Run m w).1.2 = schemaTable m.
Proof.
  intros Hok. rewrite Run_migrate, (initHandlers_ok m Hok). simpl.
  split; [apply sort_slice_perm|]. split; [apply sort_slice_sorted|done].
Qed.



(** X5. A failure of the connection while the schema table is created or
    read ends [Run] with that error wrapped by [WithStack]: no handler is
    executed and the application data is untouched. *)
Theorem Run_load_failure m w e :
  (initHandlers m).2 = None →
  fault_at w 0 = Some e ∨ (fault_at w 0 = None ∧ fault_at w 1 = Some e) →
  (Run m w).1.1 = Ret (Some (WithStack e)) ∧
  executed (Run m w).2 = executed w ∧ udata (Run m w).2 = udata w.
Proof.
  intros Hi Hf. unfold Run. destruct (initHandlers m) as [m1 err].
  simpl in Hi. subst err.
  assert (∀ u ts fs (tr : list Event) q r,
            executed (mkWorld (U:=U) u ts fs (tr ++ [EvDB q r])) =
            executed (mkWorld u ts fs tr)) as Hex.
  { intros. unfold executed. simpl. rewrite omap_app. simpl. by rewrite app_nil_r. }
  destruct Hf as [Hf0|[Hf0 Hf1]].
  - rewrite (db_Exec_fault _ w e Hf0). simpl. by rewrite Hex.
  - pose (w1 := mkWorld (udata w)
                  (match tables w !! schemaTable m1 with
                   | Some _ => tables w
                   | None => <[schemaTable m1 := []]> (tables w)
                   end)
                  (tail (faults w))
                  (trace w ++ [EvDB (createSchemaTableQuery (schemaTable m1)) None])).
    assert (db_Exec (createSchemaTableQuery (schemaTable m1)) w = (None, w1)) as ->
      by (apply db_Exec_ok; [done|apply create_effect]).
    unfold initAndGetSchema, db_Query. rewrite next_fault_eq.
    rewrite (fault_at_tail w w1 0%nat eq_refl), Hf1. simpl.
    by rewrite !Hex.
Qed.

(** X6. Whatever indices the handlers carry, what one call of [Run]
    executes is a stretch of consecutive indices in ascending order: no
    handler runs twice and none runs out of order. *)
Theorem Run_executes_consecutive_indices m w :
  Forall int_index (collected m) →
  ∃ (x : Z) (k : nat), executed (Run m w).2 = executed w ++ seqZ x (Z.of_nat k).
Proof.
  intros Hint.
  destruct (initHandlers m) as [m1 err] eqn:Hi.
  destruct err as [e|].
  { exists 0, 0%nat. unfold Run. rewrite Hi. simpl. by rewrite app_nil_r. }
  assert (Forall lists_ok (executors m)) as Hok.
  { apply (collect_None_lists_ok _ (handlers m)). revert Hi. unfold initHandlers.
    destruct (collect _ _) as [[es hs] [e|]]; [done|]. done. }
  rewrite (initHandlers_ok m Hok) in Hi. injection Hi as Hm1 Hck.
  destruct (Run_executed m w) as (i & k & Hx).
  rewrite Run_migrate, (initHandlers_ok m Hok) in Hx. simpl in Hx.
  assert (∃ x, GetIndex <$> sort_slice (collected m) =
               seqZ x (len (sort_slice (collected m)))) as [x Hd].
  { destruct (sort_slice (collected m)) as [|h tl] eqn:Hs; [by exists 0|].
    exists (GetIndex h). apply check_index_dense; [| |done].
    - rewrite <- Hs. by rewrite sort_slice_perm.
    - rewrite <- Hs. apply sort_slice_sorted. }
  rewrite fmap_take, fmap_drop, Hd in Hx.
  destruct (seqZ_segment x (len (sort_slice (collected m))) i k) as [k' Hk].
  rewrite Hk in Hx. eauto.
Qed.

End OrchestratorExtras.

Lemma drop_seqZ x n v :
  0 ≤ v ≤ n → drop (Z.to_nat v) (seqZ x n) = seqZ (x + v) (n - v).
Proof.
  intros Hv. replace n with (v + (n - v)) at 1 by lia.
  rewrite seqZ_app by lia. apply drop_app_length'. by rewrite length_seqZ.
Qed.

Section Resumption.
Context {U : Type} `{!@SortSlice U}.
Implicit Types (m : @migrate U) (w : @World U) (h : @Handler U).

Lemma executed_loaded_row t w : executed (loaded_row t w) = executed w.
Proof.
  unfold executed, loaded_row. simpl. rewrite !omap_app. simpl.
  by rewrite !app_nil_r.
Qed.



(** With a clean row whose version is beyond the slice, [Run] stops
    after the read. *)
Lemma Run_stale_row m m1 w row rest :
  initHandlers m = (m1, None) →
  tables w !! schemaTable m = Some (row :: rest) → row_dirty row = 0 →
  fault_at w 0 = None → fault_at w 1 = None →
  len (handlers m1) < row_version row →
  Run m w =
    (Ret (Some ErrIndexLessDatabaseVersion), m1, loaded_row (schemaTable m) w).
Proof.
  intros Hi Ht Hd Hf0 Hf1 Hv.
  assert (schemaTable m1 = schemaTable m) as Hst
    by (rewrite <- (initHandlers_schemaTable m); by rewrite Hi).
  pose (w1 := mkWorld (udata w) (tables w) (tail (faults w))
                (trace w ++ [EvDB (createSchemaTableQuery (schemaTable m1)) None])).
  assert (db_Exec (createSchemaTableQuery (schemaTable m1)) w = (None, w1)) as Hc1.
  { apply db_Exec_ok; [done|]. by rewrite create_effect, Hst, Ht. }
  assert (fault_at w1 0 = None) as Hf by (by rewrite (fault_at_tail w w1)).
  assert (tables w1 !! schemaTable m1 = Some (row :: rest)) as Ht1
    by (simpl; by rewrite Hst).
  pose proof (initAndGetSchema_row m1 w1 row rest Hf Ht1) as Hl.
  rewrite Hd in Hl. simpl in Hl.
  unfold Run. rewrite Hi, Hc1, Hl. simpl.
  destruct (Z.gtb_spec (row_version row) (len (handlers m1))); [|lia].
  unfold loaded_row, w1. by rewrite Hst.
Qed.

(** A first run over the indices x, x+1, ..., x+n-1 in which every
    handler succeeds: the row ends at the last index, whatever [x] is. *)
Lemma Run_all_succeed_from m w x n :
  Forall lists_ok (executors m) →
  GetIndex <$> collected m ≡ₚ seqZ x n → 1 ≤ n →
  at_zero (schemaTable m) w → calm w →
  all_succeed (sort_slice (collected m)) (udata w) →
  (Run m w).1.1 = Ret None ∧
  executed (Run m w).2 = executed w ++ seqZ x n ∧
  tables (Run m w).2 !! schemaTable m = Some [mkRow (x + n - 1) 0] ∧
  udata (Run m w).2 = run_all (sort_slice (collected m)) (udata w).
Proof.
  intros Hok Hp Hn Hz Hc Hall.
  destruct (sort_slice_dense (collected m) x n ltac:(lia) Hp) as [Hd Hlen].
  pose proof (initHandlers_ok m Hok) as Hi.
  rewrite (check_index_dense_ok x _ Hd) in Hi.
  destruct (Run_at_zero m _ w Hi Hz Hc) as (w0 & -> & Hu0 & Ht0 & Hc0 & Hx0 & Ha0).
  cbn [fst snd handlers].
  set (s := sort_slice (collected m)) in *. set (t := schemaTable m) in *.
  replace (exec_loop t s (Z.to_nat (len s)) 0 w0)
    with (exec_loop t ([] ++ s ++ []) (length s + 0) (len ([] : list (@Handler U))) w0).
  2:{ rewrite app_nil_r, Nat.add_0_r. simpl. f_equal. unfold len. lia. }
  rewrite (exec_loop_oks t [] s [] 0 w0 [mkRow 0 0]);
    [| done | by rewrite Hu0 | intros i _; apply Hc0].
  cbn [exec_loop fst snd]. split; [done|].
  rewrite after_ok_executed, after_ok_udata,
    (after_ok_table t s w0 [mkRow 0 0]) by done.
  rewrite Hx0, Hu0. pose proof Hd as Hd'. unfold dense_from in Hd'.
  rewrite Hlen in Hd'. split; [by rewrite <- Hd'|]. split; [|done].
  destruct (last s) as [h|] eqn:Hlast.
  - pose proof (dense_from_last x s h Hd Hlast) as Hh.
    simpl. by rewrite Hh, Hlen.
  - apply last_None in Hlast. rewrite Hlast in Hlen.
    unfold len in Hlen. simpl in Hlen. lia.
Qed.

(** X7. Resuming from a checkpoint. The handlers carry the indices
    1..n and the clean row holds a version v between 0 and n. With a calm
    connection and the handlers above v succeeding, [Run] skips the
    handlers up to v, executes exactly v+1, ..., n in order and returns
    no error; every row of the table then holds version n (when
    anything was executed) and keeps its dirty column. *)
Theorem Run_resumes_after_checkpoint m w n row rest :
  Forall lists_ok (executors m) →
  GetIndex <$> collected m ≡ₚ seqZ 1 n →
  tables w !! schemaTable m = Some (row :: rest) → row_dirty row = 0 →
  0 ≤ row_version row ≤ n → calm w →
  all_succeed (drop (Z.to_nat (row_version row)) (sort_slice (collected m)))
    (udata w) →
  (Run m w).1.1 = Ret None ∧
  executed (Run m w).2 =
    executed w ++ seqZ (row_version row + 1) (n - row_version row) ∧
  tables (Run m w).2 !! schemaTable m =
    Some (if row_version row <? n then advance_rows n (row :: rest)
          else row :: rest) ∧
  udata (Run m w).2 =
    run_all (drop (Z.to_nat (row_version row)) (sort_slice (collected m)))
      (udata w).
Proof.
  intros Hok Hp Ht Hd Hv Hc Hall.
  destruct (sort_slice_dense (collected m) 1 n ltac:(lia) Hp) as [Hdense Hlen].
  pose proof (initHandlers_ok m Hok) as Hi.
  rewrite (check_index_dense_ok 1 _ Hdense) in Hi.
  set (s := sort_slice (collected m)) in *. set (t := schemaTable m) in *.
  set (v := row_version row) in *.
  rewrite (Run_resume m _ w row rest Hi Ht Hd); [| simpl; fold s v; lia | done | done].
  cbn [fst snd handlers]. fold t v.
  assert (GetIndex <$> drop (Z.to_nat v) s = seqZ (v + 1) (n - v)) as Hidx.
  { rewrite fmap_drop. unfold dense_from in Hdense. rewrite Hdense, Hlen.
    rewrite drop_seqZ by lia. f_equal. lia. }
  split; [done|].
  rewrite after_ok_executed, after_ok_udata,
    (after_ok_table t _ _ (row :: rest)) by done.
  rewrite executed_loaded_row, Hidx. split; [done|]. split; [|done].
  assert (len (drop (Z.to_nat v) s) = n - v) as Hld.
  { unfold len. rewrite length_drop. unfold len in Hlen. lia. }
  destruct (last (drop (Z.to_nat v) s)) as [h|] eqn:Hlast.
  - assert (dense_from (v + 1) (drop (Z.to_nat v) s)) as Hdd
      by (unfold dense_from; by rewrite Hidx, Hld).
    pose proof (dense_from_last _ _ h Hdd Hlast) as Hh. rewrite Hld in Hh.
    assert (v < n) as Hlt.
    { apply last_Some in Hlast as [l' Hl']. rewrite Hl', len_app in Hld.
      pose proof (len_nonneg l'). unfold len in Hld at 2. simpl in Hld. lia. }
    destruct (Z.ltb_spec v n); [|lia]. do 2 f_equal. lia.
  - apply last_None in Hlast. rewrite Hlast in Hld. unfold len in Hld.
    simpl in Hld. destruct (Z.ltb_spec v n); [lia|done].
Qed.

(** X8. Running again from a new orchestrator. After a run over the
    indices 1..n in which every handler succeeded, a [Run] of an
    orchestrator built the same way (the same value [m], not the one the
    first run left behind) returns no error, executes no handler and
    leaves the tables and the application data as they are. *)
Theorem Run_again_from_new_instance_is_noop m w n :
  Forall lists_ok (executors m) →
  GetIndex <$> collected m ≡ₚ seqZ 1 n → 0 ≤ n →
  at_zero (schemaTable m) w → calm w →
  all_succeed (sort_slice (collected m)) (udata w) →
  (Run m (Run m w).2).1.1 = Ret None ∧
  executed (Run m (Run m w).2).2 = executed (Run m w).2 ∧
  tables (Run m (Run m w).2).2 = tables (Run m w).2 ∧
  udata (Run m (Run m w).2).2 = udata (Run m w).2.
Proof.
  intros Hok Hp Hn Hz Hc Hall.
  destruct (Run_all_succeed m w n Hok Hp Hn Hz Hc Hall) as (_ & _ & Ht & _).
  pose proof (Run_calm m w Hc) as Hc1.
  destruct (sort_slice_dense (collected m) 1 n Hn Hp) as [Hdense Hlen].
  pose proof (initHandlers_ok m Hok) as Hi.
  rewrite (check_index_dense_ok 1 _ Hdense) in Hi.
  set (w1 := (Run m w).2) in *.
  assert (drop (Z.to_nat n) (sort_slice (collected m)) = []) as Hdrop.
  { apply drop_ge. unfold len in Hlen. lia. }
  rewrite (Run_resume m _ w1 (mkRow n 0) [] Hi Ht);
    [| done | simpl; lia | done | simpl; by rewrite Hdrop ].
  simpl. rewrite Hdrop. simpl. split; [done|].
  split; [apply executed_loaded_row|done].
Qed.

End Resumption.

Section FailureExtras.
Context {U : Type} `{!@SortSlice U}.
Implicit Types (m : @migrate U) (w : @World U) (h : @Handler U).

(** X9. A failure blocks the next run. The handlers before the stored
    version are [applied]; the handlers of [ok] run and succeed; [h]
    fails with [e]; the connection is calm. [Run] returns [e] and every
    row of the table holds the index of [h] with the dirty mark. A [Run]
    of a new orchestrator built the same way then returns
    [ErrFindIndexDirty] with that index and executes nothing. *)
Theorem Run_failure_blocks_next_run
    m m1 w row rest (applied ok later : list (@Handler U)) h u e :
  initHandlers m = (m1, None) →
  handlers m1 = applied ++ ok ++ h :: later →
  tables w !! schemaTable m = Some (row :: rest) →
  row_dirty row = 0 → row_version row = len applied → calm w →
  all_succeed ok (udata w) →
  Exec h (run_all ok (udata w)) = (u, Some e) →
  (Run m w).1.1 = Ret (Some e) ∧
  tables (Run m w).2 !! schemaTable m =
    Some (map (λ _, mkRow (GetIndex h) 1) (row :: rest)) ∧
  udata (Run m w).2 = u ∧
  (Run m (Run m w).2).1.1 = Ret (Some (ErrFindIndexDirty (GetIndex h))) ∧
  executed (Run m (Run m w).2).2 = executed (Run m w).2 ∧
  udata (Run m (Run m w).2).2 = u.
Proof.
  intros Hi Hhs Ht Hd Hv Hc Hok He.
  set (t := schemaTable m) in *.
  assert ((Run m w).1.1 = Ret (Some e) ∧
          tables (Run m w).2 !! t =
            Some (map (λ _, mkRow (GetIndex h) 1) (row :: rest)) ∧
          udata (Run m w).2 = u) as (Hr & Ht1 & Hu1).
  { rewrite (Run_clean_row m m1 w row rest Hi Ht Hd (Hc 0%nat) (Hc 1%nat));
      [| rewrite Hv, Hhs, len_app; pose proof (len_nonneg (ok ++ h :: later)); lia ].
    rewrite Hv, Hhs. fold t.
    replace (Z.to_nat (len (applied ++ ok ++ h :: later) - len applied))
      with (length ok + S (length later))%nat
      by (rewrite !len_app, len_cons; unfold len; lia).
    rewrite (exec_loop_oks t applied ok (h :: later) _ (loaded_row t w) (row :: rest));
      [| done | done | intros i _; rewrite fault_at_loaded_row; apply Hc].
    replace (applied ++ ok ++ h :: later) with ((applied ++ ok) ++ h :: later)
      by (by rewrite <- app_assoc).
    rewrite <- len_app.
    rewrite (exec_loop_fail_marked t _ _ _ h _ u e
               (match last ok with
                | Some h' => advance_rows (GetIndex h') (row :: rest)
                | None => row :: rest
                end)).
    - simpl. split; [done|]. split; [|done]. rewrite lookup_insert_eq. f_equal.
      destruct (last ok); [|done]. unfold advance_rows. simpl.
      by rewrite map_map.
    - apply handler_at_middle.
    - by rewrite after_ok_udata.
    - rewrite (fault_at_drop (loaded_row t w) _ (length ok))
        by apply after_ok_faults.
      rewrite fault_at_loaded_row. apply Hc.
    - by apply after_ok_table. }
  split; [done|]. split; [done|]. split; [done|].
  pose proof (Run_calm m w Hc) as Hc1.
  rewrite (Run_dirty_row m m1 (Run m w).2 (mkRow (GetIndex h) 1)
             (map (λ _, mkRow (GetIndex h) 1) rest) Hi Ht1 eq_refl
             (Hc1 0%nat) (Hc1 1%nat)).
  simpl. split; [done|]. split; [apply executed_loaded_row|done].
Qed.


(** X11. Indices that do not start at 1 are accepted but do not line up
    with the stored version, which counts positions. With the indices
    x, ..., x+n-1 for x ≥ 2, a first run in which every handler succeeds
    leaves the version x+n-1, more than the n handlers there are: a
    [Run] of a new orchestrator built the same way then returns
    [ErrIndexLessDatabaseVersion] and executes nothing. *)
Theorem Run_start_above_one_goes_stale m w x n :
  Forall lists_ok (executors m) →
  GetIndex <$> collected m ≡ₚ seqZ x n → 2 ≤ x → 1 ≤ n →
  at_zero (schemaTable m) w → calm w →
  all_succeed (sort_slice (collected m)) (udata w) →
  (Run m w).1.1 = Ret None ∧
  tables (Run m w).2 !! schemaTable m = Some [mkRow (x + n - 1) 0] ∧
  (Run m (Run m w).2).1.1 = Ret (Some ErrIndexLessDatabaseVersion) ∧
  executed (Run m (Run m w).2).2 = executed (Run m w).2.
Proof.
  intros Hok Hp Hx Hn Hz Hc Hall.
  destruct (Run_all_succeed_from m w x n Hok Hp Hn Hz Hc Hall) as (Hr & _ & Ht & _).
  split; [done|]. split; [done|].
  pose proof (Run_calm m w Hc) as Hc1.
  destruct (sort_slice_dense (collected m) x n ltac:(lia) Hp) as [Hdense Hlen].
  pose proof (initHandlers_ok m Hok) as Hi.
  rewrite (check_index_dense_ok x _ Hdense) in Hi.
  rewrite (Run_stale_row m _ (Run m w).2 (mkRow (x + n - 1) 0) [] Hi Ht eq_refl
             (Hc1 0%nat) (Hc1 1%nat)); [|simpl; lia].
  simpl. split; [done|apply executed_loaded_row].
Qed.

(** X12. With the indices 0, ..., n-1 a first run in which every handler
    succeeds leaves the version n-1, one less than the n handlers there
    are: a [Run] of a new orchestrator built the same way executes the
    last handler, of index n-1, a second time. *)
Theorem Run_start_at_zero_repeats_last m w n hl :
  Forall lists_ok (executors m) →
  GetIndex <$> collected m ≡ₚ seqZ 0 n → 1 ≤ n →
  at_zero (schemaTable m) w → calm w →
  all_succeed (sort_slice (collected m)) (udata w) →
  last (sort_slice (collected m)) = Some hl →
  (Exec hl (run_all (sort_slice (collected m)) (udata w))).2 = None →
  executed (Run m w).2 = executed w ++ seqZ 0 n ∧
  (Run m (Run m w).2).1.1 = Ret None ∧
  executed (Run m (Run m w).2).2 = executed (Run m w).2 ++ [n - 1].
Proof.
  intros Hok Hp Hn Hz Hc Hall Hlast Hagain.
  destruct (Run_all_succeed_from m w 0 n Hok Hp Hn Hz Hc Hall)
    as (_ & Hx & Ht & Hu).
  split; [done|].
  pose proof (Run_calm m w Hc) as Hc1.
  destruct (sort_slice_dense (collected m) 0 n ltac:(lia) Hp) as [Hdense Hlen].
  pose proof (initHandlers_ok m Hok) as Hi.
  rewrite (check_index_dense_ok 0 _ Hdense) in Hi.
  pose proof (dense_from_last 0 _ hl Hdense Hlast) as Hhl. rewrite Hlen in Hhl.
  apply last_Some in Hlast as [l' Hl'].
  assert (length l' = Z.to_nat (n - 1)) as Hll.
  { rewrite Hl', len_app in Hlen. unfold len in Hlen. simpl in Hlen. lia. }
  assert (drop (Z.to_nat (0 + n - 1)) (sort_slice (collected m)) = [hl]) as Hdrop.
  { rewrite Hl'. apply drop_app_length'. rewrite Hll. lia. }
  rewrite (Run_resume m _ (Run m w).2 (mkRow (0 + n - 1) 0) [] Hi Ht eq_refl);
    [| simpl; lia | done
     | cbn [row_version handlers]; rewrite Hdrop; simpl; by rewrite Hu ].
  cbn [fst snd row_version handlers]. rewrite Hdrop. split; [done|].
  rewrite after_ok_executed, executed_loaded_row. simpl. by rewrite Hhl.
Qed.

End FailureExtras.

(** * Further properties of package [concrete] *)

Lemma ParseInt_is_int s v : concrete.ParseInt s = Some v → is_int v.
Proof.
  unfold concrete.ParseInt. destruct s as [|c s']; [done|].
  destruct (if Ascii.eqb c "+" then (false, s')
            else if Ascii.eqb c "-" then (true, s') else (false, String c s'))
    as [neg body].
  destruct body as [|c' body']; [done|].
  destruct (concrete.parse_digits (String c' body') 0) as [n|]; [|done].
  destruct (Z.leb_spec int_min (if neg then - n else n));
    destruct (Z.leb_spec (if neg then - n else n) int_max); simpl; try done.
  intros [= <-]. by split.
Qed.

Lemma scan_entries_app (l1 l2 : list concrete.DirEntry) acc :
  concrete.scan_entries (l1 ++ l2) acc =
    match concrete.scan_entries l1 acc with
    | inl e => inl e
    | inr acc' => concrete.scan_entries l2 acc'
    end.
Proof.
  revert acc. induction l1 as [|d l1 IH]; intros acc; [done|]. simpl.
  destruct (concrete.IsDir d); [done|].
  destruct (negb _); [apply IH|].
  destruct (concrete.ParseInt _); [apply IH|done].
Qed.

(** What a successful scan appends to the accumulator. *)
Lemma scan_entries_inr dirs acc files :
  concrete.scan_entries dirs acc = inr files →
  Forall (λ d, concrete.IsDir d = false) dirs ∧
  ∃ new, files = acc ++ new ∧
    concrete.fileName <$> new =
      filter (λ name, concrete.Ext name = concrete.sqlExt) (concrete.Name <$> dirs) ∧
    Forall (λ f, concrete.ext f = concrete.sqlExt ∧
                 concrete.ParseInt
                   (hd EmptyString (concrete.Split (concrete.fileName f) "_"%char)) =
                   Some (concrete.index f) ∧
                 is_int (concrete.index f)) new.
Proof.
  revert acc. induction dirs as [|d dirs IH]; intros acc.
  - simpl. intros [= <-]. split; [constructor|]. exists []. by rewrite app_nil_r.
  - rewrite fmap_cons, filter_cons. cbn [concrete.scan_entries].
    destruct (concrete.IsDir d) eqn:Hd; [done|].
    destruct (String.eqb_spec (concrete.Ext (concrete.Name d)) concrete.sqlExt)
      as [Hext|Hext]; simpl.
    + destruct (concrete.ParseInt _) as [num|] eqn:Hp; [|done].
      intros Hs. destruct (IH _ Hs) as (Hnd & new & -> & Hn & Hall).
      split; [by constructor|].
      exists (concrete.mkFileInfo num (concrete.Name d)
                (concrete.Ext (concrete.Name d)) :: new).
      split; [by rewrite <- app_assoc|].
      rewrite decide_True by done. split; [by rewrite fmap_cons, Hn|].
      constructor; [|done]. simpl. split; [done|]. split; [done|].
      by apply (ParseInt_is_int _ _ Hp).
    + intros Hs. destruct (IH _ Hs) as (Hnd & new & -> & Hn & Hall).
      split; [by constructor|]. exists new. rewrite decide_False by done. done.
Qed.

(** X13. When [getFilesByDir] succeeds, the directory was read and
    holds no subdirectory; the result has one entry for each directory
    entry whose extension is [.sql], in directory order and under that
    name; the index of an entry is the number [strconv.ParseInt] reads in
    the part of the name before the first underscore, and fits an
    [int]. Files with another extension are left out. *)
Theorem getFilesByDir_lists_sql_files fs dir files :
  concrete.getFilesByDir fs dir = inr files →
  ∃ dirs,
    concrete.ReadDir fs dir = inr dirs ∧
    Forall (λ d, concrete.IsDir d = false) dirs ∧
    concrete.fileName <$> files =
      filter (λ name, concrete.Ext name = concrete.sqlExt) (concrete.Name <$> dirs) ∧
    Forall (λ f, concrete.ext f = concrete.sqlExt ∧
                 concrete.ParseInt
                   (hd EmptyString (concrete.Split (concrete.fileName f) "_"%char)) =
                   Some (concrete.index f) ∧
                 is_int (concrete.index f)) files.
Proof.
  unfold concrete.getFilesByDir.
  destruct (concrete.ReadDir fs dir) as [e|dirs]; [done|]. intros Hs.
  destruct (scan_entries_inr dirs [] files Hs) as (Hnd & new & -> & Hn & Hall).
  exists dirs. done.
Qed.

Lemma Split_no_separator s (c : ascii) :
  c ∉ String.list_ascii_of_string s → concrete.Split s c = [s].
Proof.
  induction s as [|a s IH]; [done|]. simpl. intros Hn.
  apply not_elem_of_cons in Hn as [Hne Hn].
  destruct (Ascii.eqb_spec a c) as [->|_]; [done|]. by rewrite IH.
Qed.

Lemma ext_scan_dot r acc :
  concrete.ext_scan r acc ≠ [] → "."%char ∈ r.
Proof.
  revert acc. induction r as [|c r IH]; intros acc; [done|]. simpl.
  destruct (Ascii.eqb_spec c "/"); [done|].
  destruct (Ascii.eqb_spec c ".") as [->|_]; [intros _; by left|].
  intros Hne. right. by apply (IH (c :: acc)).
Qed.

Lemma Ext_dot name :
  concrete.Ext name = concrete.sqlExt → "."%char ∈ String.list_ascii_of_string name.
Proof.
  unfold concrete.Ext. intros He.
  assert (concrete.ext_scan (rev (String.list_ascii_of_string name)) [] ≠ []) as Hne.
  { intros E. by rewrite E in He. }
  apply ext_scan_dot in Hne. apply list_elem_of_In in Hne.
  apply List.in_rev in Hne. by apply list_elem_of_In.
Qed.

Lemma parse_digits_dot s acc :
  "."%char ∈ String.list_ascii_of_string s → concrete.parse_digits s acc = None.
Proof.
  revert acc. induction s as [|c s IH]; intros acc Hin; [by inv Hin|].
  simpl in *. apply elem_of_cons in Hin as [<-|Hin]; [done|].
  destruct (concrete.digit c); [by apply IH|done].
Qed.

Lemma ParseInt_dot s :
  "."%char ∈ String.list_ascii_of_string s → concrete.ParseInt s = None.
Proof.
  destruct s as [|c s]; [done|]. intros Hin. unfold concrete.ParseInt.
  destruct (Ascii.eqb_spec c "+") as [->|_];
    [|destruct (Ascii.eqb_spec c "-") as [->|_]].
  - simpl in Hin. apply elem_of_cons in Hin as [[=]|Hin].
    destruct s as [|c' s']; [done|]. by rewrite parse_digits_dot.
  - simpl in Hin. apply elem_of_cons in Hin as [[=]|Hin].
    destruct s as [|c' s']; [done|]. by rewrite parse_digits_dot.
  - by rewrite parse_digits_dot.
Qed.

(** X14. A [.sql] file whose name holds no underscore is rejected: the
    whole name, extension included, is handed to [strconv.ParseInt], so
    a name like [12.sql] makes [getFilesByDir] fail with [ErrFileName]
    once the entries before it are read. *)
Theorem getFilesByDir_needs_underscore fs dir pre name post acc :
  concrete.ReadDir fs dir = inr (pre ++ concrete.mkDirEntry name false :: post) →
  concrete.scan_entries pre [] = inr acc →
  concrete.Ext name = concrete.sqlExt →
  "_"%char ∉ String.list_ascii_of_string name →
  concrete.getFilesByDir fs dir = inl ErrFileName.
Proof.
  intros Hr Hpre Hext Hno. unfold concrete.getFilesByDir.
  rewrite Hr, scan_entries_app, Hpre. simpl.
  rewrite Hext. simpl. rewrite Split_no_separator by done. simpl.
  by rewrite ParseInt_dot by (by apply Ext_dot).
Qed.

Section SqlExecutor.
Context {U : Type}.
Implicit Types (s : @concrete.sqlExecutor U) (fs : concrete.FS).

Lemma load_files_app fs s (l1 l2 : list concrete.fileInfo) acc :
  concrete.load_files fs s (l1 ++ l2) acc =
    match concrete.load_files fs s l1 acc with
    | inl e => inl e
    | inr acc' => concrete.load_files fs s l2 acc'
    end.
Proof.
  revert acc. induction l1 as [|f l1 IH]; intros acc; [done|]. simpl.
  destruct (concrete.Open fs _ _) as [e|file]; [done|].
  destruct (concrete.Close file); [done|]. apply IH.
Qed.

Lemma load_files_ext fs s s' files acc :
  concrete.sourceDir s = concrete.sourceDir s' → concrete.db s = concrete.db s' →
  concrete.load_files fs s files acc = concrete.load_files fs s' files acc.
Proof.
  intros Hd Hdb. revert acc. induction files as [|f files IH]; intros acc; [done|].
  simpl. rewrite Hd, Hdb.
  destruct (concrete.Open fs _ _) as [e|file]; [done|].
  destruct (concrete.Close file); [done|]. apply IH.
Qed.

Lemma load_files_ok fs s files acc :
  Forall (opens fs (concrete.sourceDir s)) files →
  ∃ hs,
    concrete.load_files fs s files acc = inr (acc ++ hs) ∧
    GetIndex <$> hs = concrete.index <$> files ∧
    Forall2 (λ f h, ∃ file,
               concrete.Open fs (concrete.sourceDir s) (concrete.fileName f) = inr file ∧
               Exec h = concrete.sqlHandler_Exec
                          (concrete.mkSqlHandler (concrete.mkBaseHandler (concrete.index f))
                             (concrete.data file) (concrete.db s)))
      files hs.
Proof.
  intros Hall. revert acc. induction Hall as [|f files (file & Ho & Hc) _ IH];
    intros acc.
  - exists []. simpl. rewrite app_nil_r. repeat split. constructor.
  - simpl. rewrite Ho, Hc.
    destruct (IH (acc ++ [concrete.sqlHandler_Handler
                            (concrete.mkSqlHandler (concrete.mkBaseHandler (concrete.index f))
                               (concrete.data file) (concrete.db s))]))
      as (hs & Hl & Hi & H2).
    eexists (_ :: hs). split; [by rewrite Hl, <- app_assoc|].
    split; [by rewrite !fmap_cons, Hi|]. constructor; [|done].
    exists file. done.
Qed.

(** X15. When the directory lists and every SQL file opens and closes,
    a fresh SQL executor returns no error and one handler per file, in
    directory order: the handler's index is the file's, its action runs
    the file's content as one statement in a transaction. The list is
    kept in the executor. *)
Theorem sqlExecutor_lists_one_handler_per_file fs s files :
  concrete.handlers s = [] →
  concrete.getFilesByDir fs (concrete.sourceDir s) = inr files →
  Forall (opens fs (concrete.sourceDir s)) files →
  (concrete.sqlExecutor_ListHandlers fs s).1.2 = None ∧
  GetIndex <$> (concrete.sqlExecutor_ListHandlers fs s).1.1 =
    concrete.index <$> files ∧
  Forall2 (λ f h, ∃ file,
             concrete.Open fs (concrete.sourceDir s) (concrete.fileName f) = inr file ∧
             Exec h = concrete.sqlHandler_Exec
                        (concrete.mkSqlHandler (concrete.mkBaseHandler (concrete.index f))
                           (concrete.data file) (concrete.db s)))
    files (concrete.sqlExecutor_ListHandlers fs s).1.1 ∧
  concrete.handlers (concrete.sqlExecutor_ListHandlers fs s).2 =
    (concrete.sqlExecutor_ListHandlers fs s).1.1.
Proof.
  intros Hnil Hg Hall.
  destruct (load_files_ok fs s files [] Hall) as (hs & Hl & Hi & H2).
  unfold concrete.sqlExecutor_ListHandlers, concrete.initHandlers.
  rewrite Hnil, Hg, Hl. simpl. done.
Qed.

(** X16. The memo of the SQL executor. When a fresh executor lists
    without error, asking it again gives the same list and leaves it
    unchanged; and once the list is not empty it is returned without
    looking at the file system, whatever the directory has become. An
    empty result is not kept: the directory is read again on every
    call. *)
Theorem sqlExecutor_memoizes fs s :
  concrete.handlers s = [] →
  (concrete.sqlExecutor_ListHandlers fs s).1.2 = None →
  concrete.sqlExecutor_ListHandlers fs (concrete.sqlExecutor_ListHandlers fs s).2 =
    ((concrete.sqlExecutor_ListHandlers fs s).1,
     (concrete.sqlExecutor_ListHandlers fs s).2) ∧
  ((concrete.sqlExecutor_ListHandlers fs s).1.1 ≠ [] →
   ∀ fs', concrete.sqlExecutor_ListHandlers fs'
            (concrete.sqlExecutor_ListHandlers fs s).2 =
          ((concrete.sqlExecutor_ListHandlers fs s).1,
           (concrete.sqlExecutor_ListHandlers fs s).2)) ∧
  ((concrete.sqlExecutor_ListHandlers fs s).1.1 = [] →
   ∀ fs', concrete.sqlExecutor_ListHandlers fs'
            (concrete.sqlExecutor_ListHandlers fs s).2 =
          concrete.sqlExecutor_ListHandlers fs' s).
Proof.
  intros Hnil Herr. destruct s as [dir db hs0]. simpl in Hnil. subst hs0.
  assert (∃ hs, concrete.sqlExecutor_ListHandlers fs (concrete.mkSqlExecutor dir db []) =
                  ((hs, None), concrete.mkSqlExecutor dir db hs)) as [hs Hr].
  { revert Herr. unfold concrete.sqlExecutor_ListHandlers, concrete.initHandlers.
    simpl. destruct (concrete.getFilesByDir fs dir) as [e|files]; simpl.
    - intros _. by exists [].
    - destruct (concrete.load_files fs _ files []) as [e|hs]; simpl; [done|].
      intros _. by exists hs. }
  rewrite Hr. cbn [fst snd]. destruct hs as [|h hs].
  - split; [done|]. split; [done|]. done.
  - split; [done|]. split; [done|]. done.
Qed.

(** X17. A SQL file that cannot be opened, or whose [Close] fails, is
    reported: [ListHandlers] returns the error, wrapped twice by
    [WithStack] and with its text unchanged, together with an empty
    list, and the executor keeps nothing of the files read before. *)
Theorem sqlExecutor_reports_unreadable_file fs s pre f post err :
  concrete.handlers s = [] →
  concrete.getFilesByDir fs (concrete.sourceDir s) = inr (pre ++ f :: post) →
  Forall (opens fs (concrete.sourceDir s)) pre →
  (concrete.Open fs (concrete.sourceDir s) (concrete.fileName f) = inl err ∨
   ∃ file, concrete.Open fs (concrete.sourceDir s) (concrete.fileName f) = inr file ∧
           concrete.Close file = Some err) →
  concrete.sqlExecutor_ListHandlers fs s =
    (([], Some (WithStack (WithStack err))), s) ∧
  Error (WithStack (WithStack err)) = Error err.
Proof.
  intros Hnil Hg Hpre Hbad. split; [|done].
  destruct (load_files_ok fs s pre [] Hpre) as (hs & Hl & _).
  unfold concrete.sqlExecutor_ListHandlers, concrete.initHandlers.
  rewrite Hnil, Hg, load_files_app, Hl. simpl.
  destruct Hbad as [Ho|(file & Ho & Hc)].
  - rewrite Ho. simpl. by rewrite Hnil.
  - rewrite Ho, Hc. simpl. by rewrite Hnil.
Qed.

End SqlExecutor.

Lemma list_ascii_of_string_append (s1 s2 : string) :
  String.list_ascii_of_string (s1 +:+ s2) =
    String.list_ascii_of_string s1 ++ String.list_ascii_of_string s2.
Proof. induction s1 as [|c s1 IH]; [done|]. simpl. by rewrite IH. Qed.

Lemma string_of_list_ascii_append (l1 l2 : list ascii) :
  String.string_of_list_ascii (l1 ++ l2) =
    String.string_of_list_ascii l1 +:+ String.string_of_list_ascii l2.
Proof. induction l1 as [|c l1 IH]; [done|]. simpl. by rewrite IH. Qed.

(** What the backwards scan of [path.Ext] returns when it returns
    something: the dot it met first and the characters it passed. *)
Lemma ext_scan_found r acc res :
  concrete.ext_scan r acc = res → res ≠ [] →
  ∃ pre r', r = pre ++ "."%char :: r' ∧ res = "."%char :: (rev pre ++ acc).
Proof.
  revert acc. induction r as [|c r IH]; intros acc; simpl; [by intros <-|].
  destruct (Ascii.eqb_spec c "/"); [by intros <-|].
  destruct (Ascii.eqb_spec c ".") as [->|_].
  - intros <- _. by exists [], r.
  - intros Hs Hne. destruct (IH _ Hs Hne) as (pre & r' & -> & ->).
    exists (c :: pre), r'. split; [done|]. simpl. by rewrite <- app_assoc.
Qed.

(** X18. The extension test of [getFilesByDir] holds exactly for the
    names that end in [.sql]. *)
Theorem Ext_is_sql_iff_suffix name :
  concrete.Ext name = concrete.sqlExt ↔ ∃ base, name = base +:+ ".sql".
Proof.
  unfold concrete.Ext, concrete.sqlExt. split.
  - intros He.
    assert (concrete.ext_scan (rev (String.list_ascii_of_string name)) [] =
            String.list_ascii_of_string ".sql") as Hs.
    { rewrite <- (String.list_ascii_of_string_of_list_ascii (concrete.ext_scan _ _)).
      by rewrite He. }
    destruct (ext_scan_found _ _ _ Hs ltac:(done)) as (pre & r' & Hr & Hres).
    rewrite app_nil_r in Hres. injection Hres as Hpre.
    assert (pre = rev (String.list_ascii_of_string "sql")) as ->.
    { rewrite <- (List.rev_involutive pre), <- Hpre. done. }
    apply (f_equal (@rev ascii)) in Hr. rewrite List.rev_involutive in Hr.
    rewrite List.rev_app_distr in Hr. simpl in Hr.
    exists (String.string_of_list_ascii (rev r')).
    rewrite <- (String.string_of_list_ascii_of_string name), Hr.
    rewrite <- !app_assoc. simpl.
    by rewrite string_of_list_ascii_append.
  - intros [base ->]. rewrite list_ascii_of_string_append, List.rev_app_distr.
    done.
Qed.

(** * The further properties on samples *)

(** X1 on a sample: the second of three executors cannot open its
    file. *)
Lemma Run_stops_at_first_failing_executor_witness :
  (Run sample.around_unopenable sample.fresh).1.1 =
    Ret (Some (WithStack (WithStack (Foreign "open 1_init.sql: permission denied")))) ∧
  (Run sample.around_unopenable sample.fresh).2 = sample.fresh ∧
  GetIndex <$> handlers (Run sample.around_unopenable sample.fresh).1.2 = [1].
Proof.
  pose proof
    (Run_stops_at_first_failing_executor sample.around_unopenable sample.fresh
       [concrete.NewGoExecutor [sample.ok 1]]
       (concrete.NewSQLExecutor sample.unopenable sample.commits "")
       [concrete.NewGoExecutor [sample.ok 2]]
       (WithStack (WithStack (Foreign "open 1_init.sql: permission denied"))))
    as Hx.
  destruct Hx as (Hr & Hw & Hh & _).
  - reflexivity.
  - repeat constructor.
  - reflexivity.
  - split; [exact Hr|]. split; [exact Hw|]. rewrite Hh. reflexivity.
Defined.

(** X2 on a sample: a run that fails validation still leaves the sorted
    slice. *)
Lemma Run_keeps_everything_collected_witness :
  StronglySorted index_le
    (handlers (Run (sample.of_two [sample.ok 4; sample.ok 1] [sample.ok 1])
                 sample.fresh).1.2).
Proof.
  refine (proj1 (proj2
    (Run_keeps_everything_collected
       (sample.of_two [sample.ok 4; sample.ok 1] [sample.ok 1]) sample.fresh _))).
  repeat constructor.
Defined.



(** X5 on a sample: the statement that reads the row fails. *)
Lemma Run_load_failure_witness :
  (Run (sample.of_go [sample.ok 1])
     (sample.with_faults [None; Some (Foreign "connection lost")]
        sample.fresh)).1.1 =
    Ret (Some (WithStack (Foreign "connection lost"))).
Proof.
  refine (proj1
    (Run_load_failure (sample.of_go [sample.ok 1])
       (sample.with_faults [None; Some (Foreign "connection lost")] sample.fresh)
       (Foreign "connection lost") _ _)).
  - reflexivity.
  - right. split; reflexivity.
Defined.

(** X6 on a sample: handlers with the indices 5, 6, 7. *)
Lemma Run_executes_consecutive_indices_witness :
  ∃ (x : Z) (k : nat),
    executed (Run (sample.of_go [sample.ok 7; sample.ok 5; sample.failing 6 "boom"])
                sample.fresh).2 = [] ++ seqZ x (Z.of_nat k).
Proof.
  refine (Run_executes_consecutive_indices
            (sample.of_go [sample.ok 7; sample.ok 5; sample.failing 6 "boom"])
            sample.fresh _).
  repeat constructor; vm_compute; discriminate.
Defined.

(** X7 on a sample: three handlers, the checkpoint at 1. *)
Lemma Run_resumes_after_checkpoint_witness :
  executed (Run (sample.of_go [sample.ok 2; sample.ok 1; sample.ok 3])
              (sample.with_row 1 0)).2 = [2; 3] ∧
  tables (Run (sample.of_go [sample.ok 2; sample.ok 1; sample.ok 3])
            (sample.with_row 1 0)).2 !! defaultSchemaTableName = Some [mkRow 3 0].
Proof.
  pose proof
    (Run_resumes_after_checkpoint
       (sample.of_go [sample.ok 2; sample.ok 1; sample.ok 3])
       (sample.with_row 1 0) 3 (mkRow 1 0) []) as Hx.
  destruct Hx as (_ & He & Ht & _).
  - repeat constructor.
  - apply perm_swap.
  - reflexivity.
  - reflexivity.
  - simpl. lia.
  - apply calm_nil. reflexivity.
  - vm_compute. repeat split.
  - split; [exact He|exact Ht].
Defined.

(** X8 on a sample: a first run of two handlers, then a run of a new
    orchestrator. *)
Lemma Run_again_from_new_instance_is_noop_witness :
  (Run (sample.of_go [sample.ok 1; sample.ok 2])
     (Run (sample.of_go [sample.ok 1; sample.ok 2]) sample.fresh).2).1.1 = Ret None ∧
  executed
    (Run (sample.of_go [sample.ok 1; sample.ok 2])
       (Run (sample.of_go [sample.ok 1; sample.ok 2]) sample.fresh).2).2 = [1; 2].
Proof.
  pose proof
    (Run_again_from_new_instance_is_noop
       (sample.of_go [sample.ok 1; sample.ok 2]) sample.fresh 2) as Hx.
  destruct Hx as (Hr & He & _).
  - repeat constructor.
  - apply Permutation_refl.
  - lia.
  - left. reflexivity.
  - apply calm_nil. reflexivity.
  - vm_compute. repeat split.
  - split; [exact Hr|]. rewrite He. reflexivity.
Defined.

(** X9 on a sample: the checkpoint is at 1, handler 2 succeeds, handler 3
    fails. *)
Lemma Run_failure_blocks_next_run_witness :
  let m := sample.of_go [sample.ok 1; sample.ok 2; sample.failing 3 "boom"] in
  (Run m (sample.with_row 1 0)).1.1 = Ret (Some (Foreign "boom")) ∧
  (Run m (Run m (sample.with_row 1 0)).2).1.1 = Ret (Some (ErrFindIndexDirty 3)).
Proof.
  pose proof
    (Run_failure_blocks_next_run
       (sample.of_go [sample.ok 1; sample.ok 2; sample.failing 3 "boom"])
       (initHandlers
          (sample.of_go [sample.ok 1; sample.ok 2; sample.failing 3 "boom"])).1
       (sample.with_row 1 0) (mkRow 1 0) []
       [concrete.GoHandler_Handler (sample.ok 1)]
       [concrete.GoHandler_Handler (sample.ok 2)] []
       (concrete.GoHandler_Handler (sample.failing 3 "boom"))
       [2] (Foreign "boom")) as Hx.
  destruct Hx as (Hr & _ & _ & Hr2 & _).
  - reflexivity.
  - reflexivity.
  - reflexivity.
  - reflexivity.
  - reflexivity.
  - apply calm_nil. reflexivity.
  - simpl. split; reflexivity.
  - reflexivity.
  - split; [exact Hr|exact Hr2].
Defined.


(** X11 on a sample: the two handlers of indices 2 and 3. *)
Lemma Run_start_above_one_goes_stale_witness :
  let m := sample.of_go [sample.ok 2; sample.ok 3] in
  (Run m sample.fresh).1.1 = Ret None ∧
  (Run m (Run m sample.fresh).2).1.1 = Ret (Some ErrIndexLessDatabaseVersion).
Proof.
  pose proof
    (Run_start_above_one_goes_stale (sample.of_go [sample.ok 2; sample.ok 3])
       sample.fresh 2 2) as Hx.
  destruct Hx as (Hr & _ & Hr2 & _).
  - repeat constructor.
  - apply Permutation_refl.
  - lia.
  - lia.
  - left. reflexivity.
  - apply calm_nil. reflexivity.
  - vm_compute. repeat split.
  - split; [exact Hr|exact Hr2].
Defined.

(** X12 on a sample: the two handlers of indices 0 and 1. *)
Lemma Run_start_at_zero_repeats_last_witness :
  let m := sample.of_go [sample.ok 0; sample.ok 1] in
  executed (Run m sample.fresh).2 = [0; 1] ∧
  executed (Run m (Run m sample.fresh).2).2 = [0; 1; 1].
Proof.
  pose proof
    (Run_start_at_zero_repeats_last (sample.of_go [sample.ok 0; sample.ok 1])
       sample.fresh 2 (concrete.GoHandler_Handler (sample.ok 1))) as Hx.
  destruct Hx as (He & _ & He2).
  - repeat constructor.
  - apply Permutation_refl.
  - lia.
  - left. reflexivity.
  - apply calm_nil. reflexivity.
  - vm_compute. repeat split.
  - reflexivity.
  - reflexivity.
  - split; [exact He|]. rewrite He2, He. reflexivity.
Defined.

(** X13 on a sample: a directory with two SQL files and a README. *)
Lemma getFilesByDir_lists_sql_files_witness :
  ∃ dirs,
    concrete.ReadDir sample.two_files "./migration" = inr dirs ∧
    Forall (λ d, concrete.IsDir d = false) dirs ∧
    ["1_init.sql"; "2_users.sql"] =
      filter (λ name, concrete.Ext name = concrete.sqlExt) (concrete.Name <$> dirs).
Proof.
  destruct (getFilesByDir_lists_sql_files sample.two_files "./migration"
              [concrete.mkFileInfo 1 "1_init.sql" ".sql";
               concrete.mkFileInfo 2 "2_users.sql" ".sql"] eq_refl)
    as (dirs & Hr & Hd & Hn & _).
  exists dirs. split; [exact Hr|]. split; [exact Hd|exact Hn].
Defined.

(** X14 on a sample: the file [12.sql]. *)
Lemma getFilesByDir_needs_underscore_witness :
  concrete.getFilesByDir sample.underscoreless "./migration" = inl ErrFileName.
Proof.
  refine (getFilesByDir_needs_underscore sample.underscoreless "./migration"
            [concrete.mkDirEntry "1_init.sql" false] "12.sql" []
            [concrete.mkFileInfo 1 "1_init.sql" ".sql"] _ _ _ _).
  - reflexivity.
  - reflexivity.
  - reflexivity.
  - apply (bool_decide_unpack _). vm_compute. exact I.
Defined.

(** X15 on a sample: the two SQL files give the handlers 1 and 2. *)
Lemma sqlExecutor_lists_one_handler_per_file_witness :
  GetIndex <$>
    (concrete.sqlExecutor_ListHandlers sample.two_files sample.sql_executor).1.1 =
    [1; 2].
Proof.
  refine (proj1 (proj2
    (sqlExecutor_lists_one_handler_per_file sample.two_files sample.sql_executor
       [concrete.mkFileInfo 1 "1_init.sql" ".sql";
        concrete.mkFileInfo 2 "2_users.sql" ".sql"] _ _ _))).
  - reflexivity.
  - reflexivity.
  - repeat constructor; eexists; split; reflexivity.
Defined.

(** X16 on a sample: the list made from one file system is returned
    under another, where the directory cannot be read. *)
Lemma sqlExecutor_memoizes_witness :
  GetIndex <$>
    (concrete.sqlExecutor_ListHandlers sample.unreadable
       (concrete.sqlExecutor_ListHandlers sample.two_files sample.sql_executor).2).1.1 =
    [1; 2].
Proof.
  pose proof (sqlExecutor_memoizes sample.two_files sample.sql_executor) as Hx.
  destruct Hx as (_ & Hmemo & _).
  - reflexivity.
  - reflexivity.
  - rewrite (Hmemo ltac:(discriminate) sample.unreadable). reflexivity.
Defined.

(** X17 on a sample: the one SQL file cannot be opened. *)
Lemma sqlExecutor_reports_unreadable_file_witness :
  (concrete.sqlExecutor_ListHandlers sample.unopenable sample.sql_executor).1 =
    ([], Some (WithStack (WithStack (Foreign "open 1_init.sql: permission denied")))).
Proof.
  refine (f_equal fst (proj1
    (sqlExecutor_reports_unreadable_file sample.unopenable sample.sql_executor
       [] (concrete.mkFileInfo 1 "1_init.sql" ".sql") []
       (Foreign "open 1_init.sql: permission denied") _ _ _ _))).
  - reflexivity.
  - reflexivity.
  - constructor.
  - left. reflexivity.
Defined.
